(** * nspic: scroll indicators of the image gallery and the upload helper

    A shallow embedding of [static/gallery.js] (the scan of the page for
    indicator lists and the IntersectionObserver callback that keeps one
    scroll indicator highlighted) and of the upload script (the detection
    of the base path, [postFile] and its progress listener), followed by
    the properties of the two scripts.

    JavaScript Numbers that carry measured or computed quantities
    ([intersectionRatio], [loaded], [total], [size], [percent]) are IEEE 754
    binary64 values, modelled by Rocq's primitive [float]; array indices
    are integers, modelled in [Z] so that the [-1] of [indexOf] exists. *)

From Stdlib Require Import List String Ascii ZArith Bool Lia Floats Sorted.
Import ListNotations.

(** A decimal literal denotes the nearest binary64 value, as it does in
    JavaScript. *)
Set Warnings "-inexact-float".

(* ================================================================== *)
(** * The part of the DOM the scripts touch *)
(* ================================================================== *)

Module DOM.

(** A DOM element is known to the script by identity only ([indexOf]
    compares with [===]); an element is named by a number. *)
Definition Element := nat.

(** [classList]: an ordered set of tokens. *)
Definition DOMTokenList := list string.

Definition contains (l : DOMTokenList) (token : string) : bool :=
  existsb (String.eqb token) l.

Definition remove (l : DOMTokenList) (token : string) : DOMTokenList :=
  filter (fun t => negb (String.eqb token t)) l.

(** [classList.toggle(token, force)] with [force] given: a present token
    is kept when [force] is true and removed otherwise; an absent token
    is appended when [force] is true and stays absent otherwise.  The
    script discards the returned boolean. *)
Definition toggle (l : DOMTokenList) (token : string) (force : bool)
  : DOMTokenList :=
  if contains l token
  then (if force then l else remove l token)
  else (if force then l ++ [token] else l).

(** The mutable state the gallery script works on: the class list of
    every element of the page.  Two array slots holding the same
    element share one class list. *)
Definition Document := Element -> DOMTokenList.

Definition classList (d : Document) (e : Element) : DOMTokenList := d e.

Definition classList_toggle (e : Element) (token : string) (force : bool)
           (d : Document) : Document :=
  fun e' => if Nat.eqb e' e then toggle (d e) token force else d e'.

End DOM.

(* ================================================================== *)
(** * static/gallery.js *)
(* ================================================================== *)

Module Gallery.
Import DOM.

(** [Array.prototype.forEach] with the index argument, threading the
    state the callback mutates. *)
Fixpoint forEach_from {A S : Type} (f : A -> Z -> S -> S)
         (l : list A) (i : Z) (s : S) : S :=
  match l with
  | [] => s
  | x :: l' => forEach_from f l' (i + 1)%Z (f x i s)
  end.

Definition forEach {A S : Type} (f : A -> Z -> S -> S) (l : list A) (s : S)
  : S :=
  forEach_from f l 0%Z s.

(** [Array.prototype.indexOf]: the first index holding the element,
    [-1] when there is none. *)
Fixpoint indexOf_from (l : list Element) (x : Element) (i : Z) : Z :=
  match l with
  | [] => (-1)%Z
  | y :: l' => if Nat.eqb y x then i else indexOf_from l' x (i + 1)%Z
  end.

Definition indexOf (l : list Element) (x : Element) : Z :=
  indexOf_from l x 0%Z.

(** What the callback reads of an [IntersectionObserverEntry]. *)
Record IntersectionObserverEntry := {
  target : Element;
  isIntersecting : bool;
  intersectionRatio : float
}.

(** The constants one invocation of the [AllIndicatorLists.forEach]
    callback binds and its two inner functions close over. *)
Record Gallery := {
  Images : list Element;
  Indicators : list Element
}.

(** The literal [0.6] of the script (and of the observer's options):
    the binary64 value nearest to 6/10. *)
Definition threshold : float := 0.6%float.

(** [a >= b] on Numbers. *)
Definition Number_ge (a b : float) : bool := PrimFloat.leb b a.

(** The arrow function [activateIndicator] hands to [forEach]. *)
Definition toggle_each (index : Z) : Element -> Z -> Document -> Document :=
  fun indicator i d => classList_toggle indicator "Active" (Z.eqb i index) d.

Definition activateIndicator (g : Gallery) (index : Z) (d : Document)
  : Document :=
  forEach (toggle_each index) (Indicators g) d.

(** The guard of the callback. *)
Definition qualifies (entry : IntersectionObserverEntry) : bool :=
  isIntersecting entry && Number_ge (intersectionRatio entry) threshold.

(** The arrow function [onIntersectionObserved] hands to [forEach]. *)
Definition on_entry (g : Gallery)
  : IntersectionObserverEntry -> Z -> Document -> Document :=
  fun entry _ d =>
    if qualifies entry then
      let IntersectingIndex := indexOf (Images g) (target entry) in
      activateIndicator g IntersectingIndex d
    else d.

Definition onIntersectionObserved (g : Gallery)
           (entries : list IntersectionObserverEntry) (d : Document)
  : Document :=
  forEach (on_entry g) entries d.

(** The observer calls the callback once per batch, in delivery order. *)
Definition deliver (g : Gallery)
           (batches : list (list IntersectionObserverEntry)) (d : Document)
  : Document :=
  fold_left (fun d entries => onIntersectionObserved g entries d) batches d.

(** Observable state of an indicator. *)
Definition isActive (d : Document) (e : Element) : bool :=
  contains (classList d e) "Active".

Definition countActive (g : Gallery) (d : Document) : nat :=
  List.length (filter (isActive d) (Indicators g)).

(** Modelled from the spec: the markup of the page comes from a template
    that is not among the sources; as served it marks no Indicator active
    ("initial state: zero active"). *)
Definition as_served (g : Gallery) (d : Document) : Prop :=
  countActive g d = 0%nat.

End Gallery.

(* ================================================================== *)
(** * The page scan of static/gallery.js *)
(* ================================================================== *)

(** The element tree of the document, as far as the selectors of the
    script look at it: the elements in document order, each with its tag
    name and its depth (0 for the root, at most one more than that of the
    element before).  An [Element] is the position in this order. *)
Module Page.
Import DOM Gallery.

Record Info := { localName : string; depth : nat }.

Definition Tree := list Info.

Definition info (t : Tree) (e : Element) : option Info := nth_error t e.

Definition depth_of (t : Tree) (e : Element) : nat :=
  match info t e with Some i => depth i | None => 0%nat end.

(** The length of the run of elements deeper than [k] that [rest] starts
    with. *)
Fixpoint deeper_run (k : nat) (rest : list Info) : nat :=
  match rest with
  | [] => 0%nat
  | x :: rest' => if Nat.ltb k (depth x) then S (deeper_run k rest') else 0%nat
  end.

(** The descendants of an element follow it directly, up to the next
    element that is not deeper. *)
Definition descendants (t : Tree) (e : Element) : list Element :=
  seq (S e) (deeper_run (depth_of t e) (skipn (S e) t)).

(** The parent is the nearest element before that is less deep. *)
Definition parentElement (t : Tree) (e : Element) : option Element :=
  match info t e with
  | None => None
  | Some _ =>
      find (fun p => Nat.ltb (depth_of t p) (depth_of t e)) (rev (seq 0 e))
  end.

(** A compound selector [tag.class]. *)
Definition is_a (t : Tree) (d : Document) (tag class : string) (e : Element)
  : bool :=
  match info t e with
  | Some i => (String.eqb (localName i) tag && contains (classList d e) class)%bool
  | None => false
  end.

(** [document.querySelectorAll] and [element.querySelectorAll] for
    [tag.class]. *)
Definition document_querySelectorAll (t : Tree) (d : Document)
           (tag class : string) : list Element :=
  filter (is_a t d tag class) (seq 0 (List.length t)).

Definition querySelectorAll (t : Tree) (d : Document) (scope : Element)
           (tag class : string) : list Element :=
  filter (is_a t d tag class) (descendants t scope).

Definition querySelector (t : Tree) (d : Document) (scope : Element)
           (tag class : string) : option Element :=
  hd_error (querySelectorAll t d scope tag class).

(** [element.querySelectorAll] for [tag.class > child]: the elements named
    [child] below [scope] whose parent is a [tag.class]. *)
Definition querySelectorAll_children (t : Tree) (d : Document)
           (scope : Element) (tag class child : string) : list Element :=
  filter (fun e =>
            match info t e, parentElement t e with
            | Some i, Some p =>
                (String.eqb (localName i) child && is_a t d tag class p)%bool
            | _, _ => false
            end)
         (descendants t scope).

Record IntersectionObserver := {
  root : option Element;
  observer_threshold : float;
  observed : list Element
}.

(** One call of the callback of [AllIndicatorLists.forEach]: the constants
    it binds and the observer it creates and starts, or [None] when
    [indi_list] has no parent element and the call throws. *)
Definition setup (t : Tree) (d : Document) (indi_list : Element)
  : option (Gallery * IntersectionObserver) :=
  match parentElement t indi_list with
  | None => None
  | Some Post =>
      let ImageList := querySelector t d Post "ul" "ImageList" in
      let Images := querySelectorAll_children t d Post "ul" "ImageList" "li" in
      let Indicators := querySelectorAll t d indi_list "li" "ScrollIndicator" in
      let Observer := {| root := ImageList;
                         observer_threshold := 0.6;
                         observed := Images |} in
      Some ({| Images := Images; Indicators := Indicators |}, Observer)
  end.

(** The script: every list that is set up before a call throws. *)
Fixpoint setup_all (t : Tree) (d : Document) (lists : list Element)
  : list (Gallery * IntersectionObserver) :=
  match lists with
  | [] => []
  | indi_list :: rest =>
      match setup t d indi_list with
      | Some instance => instance :: setup_all t d rest
      | None => []
      end
  end.

Definition script (t : Tree) (d : Document)
  : list (Gallery * IntersectionObserver) :=
  let AllIndicatorLists := document_querySelectorAll t d "ul" "ScrollIndicators" in
  setup_all t d AllIndicatorLists.

End Page.

(* ================================================================== *)
(** * The upload script *)
(* ================================================================== *)

Module Upload.

(** ** The base path, detected when the script is loaded

    [url.pathname.match] with a case-insensitive pattern anchored at
    both ends: an optional capture group made of a slash and a greedy
    run of any characters, then [/upload] and an optional slash.  A
    pathname is a string of ASCII characters. *)

(** Flag [i]: characters are compared after case folding. *)
Definition canonicalize (c : ascii) : ascii :=
  let n := nat_of_ascii c in
  if (Nat.leb 97 n && Nat.leb n 122)%bool then ascii_of_nat (n - 32) else c.

Fixpoint fold_case (s : string) : string :=
  match s with
  | EmptyString => EmptyString
  | String c s' => String (canonicalize c) (fold_case s')
  end.

(** The part of the pattern after the group, matched against the whole
    of what is left of the pathname. *)
Definition upload_at_end (rest : string) : bool :=
  (String.eqb (fold_case rest) "/UPLOAD/"
   || String.eqb (fold_case rest) "/UPLOAD")%bool.

(** The dot matches any character but a line terminator. *)
Definition line_terminator (c : ascii) : bool :=
  (Ascii.eqb c "010" || Ascii.eqb c "013")%bool.

(** The greedy run inside the group, followed by the rest of the
    pattern: the star takes as many characters as it can and gives them
    back one by one.  The result is what the star matched. *)
Fixpoint dot_star (s : string) : option string :=
  match s with
  | EmptyString => if upload_at_end s then Some EmptyString else None
  | String c s' =>
      match (if line_terminator c then None else dot_star s') with
      | Some w => Some (String c w)
      | None => if upload_at_end s then Some EmptyString else None
      end
  end.

(** The result of [match]: [None] for [null], otherwise capture group 1
    ([None] for [undefined]).  The optional group is tried first. *)
Definition match_upload (pathname : string) : option (option string) :=
  let group :=
    match pathname with
    | String "/" rest =>
        match dot_star rest with
        | Some w => Some (String "/" w)
        | None => None
        end
    | _ => None
    end in
  match group with
  | Some g => Some (Some g)
  | None => if upload_at_end pathname then Some None else None
  end.

Definition serve_prefix (pathname : string) : string :=
  match match_upload pathname with
  | Some (Some g) => g
  | _ => EmptyString
  end.

(** ** [postFile] *)

(** What the script reads of a [File]; the object itself goes into the
    form data. *)
Record File := { name : string; size : float }.

Inductive FormDataEntryValue :=
| Text (s : string)
| Blob (f : File).

Definition FormData := list (string * FormDataEntryValue).

Record ProgressEvent := { loaded : float; total : float }.

(** The controls of the page [postFile] reads. *)
Record Form := { Desc : string; FilesToUpload : list File }.

(** The [for] loop over [files_control.files]. *)
Definition append_files (files : list File) (formdata : FormData)
           (total_size : float) : FormData * float :=
  fold_left (fun (acc : FormData * float) (f : File) =>
               (fst acc ++ [("FileToUpload"%string, Blob f)],
                (snd acc + size f)%float))
            files (formdata, total_size).

(** The progress listener is a closure over [total_size]. *)
Inductive Listener := progress_listener (total_size : float).

(** What [postFile] does to the [XMLHttpRequest] it creates, in order. *)
Inductive XHRCall :=
| upload_addEventListener (type : string) (l : Listener)
| open (method url : string)
| set_timeout (milliseconds : Z)
| send (body : FormData).

Definition postFile (serve_prefix : string) (form : Form) : list XHRCall :=
  let formdata := [("Desc"%string, Text (Desc form))] in
  let '(formdata, total_size) :=
    append_files (FilesToUpload form) formdata 0%float in
  [ upload_addEventListener "progress" (progress_listener total_size);
    open "post" (serve_prefix ++ "/upload/");
    set_timeout 3600000;
    send formdata ].

(** The bodies handed to [send], in order. *)
Definition submitted (calls : list XHRCall) : list FormData :=
  flat_map (fun c => match c with send body => [body] | _ => [] end) calls.

(** [total_size] after the loop. *)
Definition sum_sizes (files : list File) : float :=
  fold_left (fun ts f => (ts + size f)%float) files 0%float.

(** ** The progress listener *)

(** [Math.round] yields NaN, an infinity, -0 or an integer; the integer
    is kept in [Z]. *)
Inductive Integral :=
| NaN
| Infinity (negative : bool)
| NegZero
| Int (z : Z).

(** [Math.round]: the nearest integer, a tie going towards +infinity;
    a negative argument down to -0.5 gives -0.  The argument is decoded
    into sign, mantissa [m] and exponent [e], its magnitude being
    [m * 2^e]. *)
Definition Math_round (x : float) : Integral :=
  match Prim2SF x with
  | S754_nan => NaN
  | S754_infinity s => Infinity s
  | S754_zero s => if s then NegZero else Int 0
  | S754_finite s m e =>
      if Z.leb 0 e then
        let z := (Zpos m * 2 ^ e)%Z in Int (if s then - z else z)
      else
        let d := (2 ^ (- e))%Z in
        let q := (Zpos m / d)%Z in
        let r := (Zpos m mod d)%Z in
        if s then
          let n := if Z.ltb d (2 * r) then (q + 1)%Z else q in
          if Z.eqb n 0 then NegZero else Int (- n)
        else
          Int (if Z.leb d (2 * r) then q + 1 else q)%Z
  end.

(** The strings the listener assigns all read [percent + '%'] for an
    integral Number [percent] (the literal ['100%'] is that of 100); an
    assignment is recorded with that Number. *)
Inductive Assignment :=
| ProgressBar_style_width (percent : Integral)
| ProgressBar_innerHTML (percent : Integral).

Definition show (percent : Integral) : list Assignment :=
  [ProgressBar_style_width percent; ProgressBar_innerHTML percent].

(** One call of the listener: the assignments it makes, in order. *)
Definition on_progress (l : Listener) (e : ProgressEvent) : list Assignment :=
  let '(progress_listener total_size) := l in
  (if PrimFloat.leb (loaded e) total_size then
     let percent := Math_round (loaded e / total_size * 100)%float in
     show percent
   else [])
  ++
  (if PrimFloat.eqb (loaded e) (total e) then show (Int 100) else []).

Definition assigned (a : Assignment) : Integral :=
  match a with
  | ProgressBar_style_width p => p
  | ProgressBar_innerHTML p => p
  end.

(** A percentage between 0 and 100 (-0 reads "0"). *)
Definition within_0_100 (p : Integral) : Prop :=
  match p with
  | Int z => (0 <= z <= 100)%Z
  | NegZero => True
  | _ => False
  end.

End Upload.

(* ================================================================== *)
(** * Binary64: notions used to bound the results of operations *)
(* ================================================================== *)

Module Binary64.
Local Open Scope Z_scope.

(** The bits shifted out so far are not all zero. *)
Definition inexact (mrs : shr_record) : bool := shr_r mrs || shr_s mrs.

(** A truncated mantissa [m] of a quantity that is at most [K] units:
    [m] is at most [K], and below it when the truncation lost something. *)
Definition below (K m : Z) (i : bool) : Prop := m <= K /\ (i = true -> m < K).

Definition loc_inexact (l : location) : bool :=
  match l with loc_Exact => false | loc_Inexact _ => true end.

(** [m1 * 2^e1 <= m2 * 2^e2], stated in integers. *)
Definition val_le (m1 e1 m2 e2 : Z) : Prop :=
  m1 * 2 ^ (e1 - Z.min e1 e2) <= m2 * 2 ^ (e2 - Z.min e1 e2).

(** A non-negative binary64 value that is at most [mb * 2^eb]. *)
Definition at_most (mb eb : Z) (x : spec_float) : Prop :=
  match x with
  | S754_zero _ => True
  | S754_finite false m e => e <= eb /\ Zpos m <= mb * 2 ^ (eb - e)
  | _ => False
  end.

(** The Number 100, decoded. *)
Definition hundred : spec_float := S754_finite false 7036874417766400 (-46).

End Binary64.

(* ================================================================== *)
(** * Notions used to state further properties *)
(* ================================================================== *)

Module Notions.
Import DOM Gallery.

(** The entry of a sequence of entries that passed the guard of the
    callback last, if any did. *)
Definition last_qualifying (entries : list IntersectionObserverEntry)
  : option IntersectionObserverEntry :=
  find qualifies (rev entries).


(** A string without line terminators. *)
Definition single_line (s : string) : Prop :=
  forall c, In c (list_ascii_of_string s) -> Upload.line_terminator c = false.

(** A percentage that reads "0": the Number 0 or -0. *)
Definition reads_zero (p : Upload.Integral) : Prop :=
  p = Upload.Int 0 \/ p = Upload.NegZero.

End Notions.

(* ================================================================== *)
(** * A concrete page *)
(* ================================================================== *)

(** A page with two posts, used to run the scripts on concrete input.
    In document order: html 0, body 1; the first post 2 with its image
    list 3, six images 4..9, its indicator list 10 and six indicators
    11..16; the second post 17 with its image list 18, two images 19 and
    20, its indicator list 21 and two indicators 22 and 23. *)
Module Sample.
Import DOM Gallery.

Definition el (tag : string) (depth : nat) : Page.Info :=
  {| Page.localName := tag; Page.depth := depth |}.

Definition page : Page.Tree :=
  [ el "html" 0; el "body" 1;
    el "div" 2;
      el "ul" 3; el "li" 4; el "li" 4; el "li" 4; el "li" 4; el "li" 4; el "li" 4;
      el "ul" 3; el "li" 4; el "li" 4; el "li" 4; el "li" 4; el "li" 4; el "li" 4;
    el "div" 2;
      el "ul" 3; el "li" 4; el "li" 4;
      el "ul" 3; el "li" 4; el "li" 4 ].

Definition among (l : list Element) (e : Element) : bool :=
  existsb (Nat.eqb e) l.

(** The markup as served: no indicator is active. *)
Definition served : Document :=
  fun e =>
    if among [2; 17] e then ["Post"%string]
    else if among [3; 18] e then ["ImageList"%string]
    else if among [10; 21] e then ["ScrollIndicators"%string]
    else if among [11; 12; 13; 14; 15; 16; 22; 23] e
         then ["ScrollIndicator"%string]
    else [].

(** The constants the script binds for the two posts. *)
Definition galleryA : Gallery :=
  {| Images := [4; 5; 6; 7; 8; 9];
     Indicators := [11; 12; 13; 14; 15; 16] |}.

Definition galleryB : Gallery :=
  {| Images := [19; 20]; Indicators := [22; 23] |}.

(** A state in which the first indicator of each gallery is active. *)
Definition first_active : Document :=
  fun e => if among [11; 22] e
           then ["ScrollIndicator"; "Active"]%string
           else served e.

Definition notify (item : Element) (ratio : float)
  : IntersectionObserverEntry :=
  {| target := item; isIntersecting := true; intersectionRatio := ratio |}.

(** A file of 1000 bytes selected in the upload form. *)
Definition photo : Upload.File :=
  {| Upload.name := "photo.jpg"; Upload.size := 1000%float |}.

End Sample.

(* ================================================================== *)
(** * Properties of static/gallery.js *)
(* ================================================================== *)

Module GalleryFacts.
Import DOM Gallery.

(** ** Class lists *)

Lemma contains_remove_same (l : DOMTokenList) (t : string) :
  contains (remove l t) t = false.
Proof.
  unfold contains, remove.
  induction l as [|x l IH]; simpl; [reflexivity|].
  destruct (String.eqb t x) eqn:E; simpl; [exact IH|].
  rewrite E. exact IH.
Qed.

Lemma contains_app_same (l : DOMTokenList) (t : string) :
  contains (l ++ [t]) t = true.
Proof.
  unfold contains. rewrite existsb_app. simpl.
  rewrite String.eqb_refl. now rewrite orb_true_r.
Qed.

Lemma contains_toggle_same (l : DOMTokenList) (t : string) (force : bool) :
  contains (toggle l t force) t = force.
Proof.
  unfold toggle.
  destruct (contains l t) eqn:E, force; auto using contains_remove_same,
    contains_app_same.
Qed.

Lemma contains_toggle_other (l : DOMTokenList) (t t' : string) (force : bool) :
  t <> t' -> contains (toggle l t force) t' = contains l t'.
Proof.
  intros Hne. unfold toggle.
  assert (Hr : contains (remove l t) t' = contains l t').
  { unfold contains, remove. induction l as [|x l IH]; simpl; [reflexivity|].
    destruct (String.eqb t x) eqn:E; simpl.
    - apply String.eqb_eq in E. subst x.
      destruct (String.eqb t' t) eqn:E'; [|exact IH].
      apply String.eqb_eq in E'. congruence.
    - now rewrite IH. }
  assert (Ha : contains (l ++ [t]) t' = contains l t').
  { unfold contains. rewrite existsb_app. simpl.
    destruct (String.eqb t' t) eqn:E'.
    - apply String.eqb_eq in E'. congruence.
    - now rewrite !orb_false_r. }
  destruct (contains l t), force; auto.
Qed.

Lemma toggle_idempotent (l : DOMTokenList) (t : string) (force : bool) :
  toggle (toggle l t force) t force = toggle l t force.
Proof.
  pose proof (contains_toggle_same l t force) as H.
  unfold toggle at 1. rewrite H.
  destruct force; [reflexivity|].
  reflexivity.
Qed.

(** ** One pass of [activateIndicator] *)

(** Elements outside the array are not written. *)
Lemma pass_frame (index : Z) (l : list Element) :
  forall (i : Z) (d : Document) (e : Element),
    ~ In e l -> forEach_from (toggle_each index) l i d e = d e.
Proof.
  induction l as [|x l IH]; intros i d e Hn; simpl; [reflexivity|].
  rewrite IH by (intro; apply Hn; now right).
  unfold toggle_each, classList_toggle.
  destruct (Nat.eqb e x) eqn:E; [|reflexivity].
  apply Nat.eqb_eq in E. subst. exfalso. apply Hn. now left.
Qed.

(** With pairwise distinct slots, slot [j] is toggled exactly once, with
    force [i + j === index]. *)
Lemma pass_at (index : Z) (l : list Element) :
  NoDup l ->
  forall (i : Z) (d : Document) (j : nat) (e : Element),
    nth_error l j = Some e ->
    forEach_from (toggle_each index) l i d e
    = toggle (d e) "Active" (Z.eqb (i + Z.of_nat j) index).
Proof.
  induction 1 as [|x l Hx Hnd IH]; intros i d j e Hj.
  - destruct j; discriminate.
  - destruct j as [|j]; simpl in Hj |- *.
    + injection Hj as ->. rewrite pass_frame by assumption.
      unfold toggle_each, classList_toggle. rewrite Nat.eqb_refl.
      now rewrite Z.add_0_r.
    + rewrite (IH _ _ j e Hj).
      assert (Hne : Nat.eqb e x = false).
      { apply Nat.eqb_neq. intros ->. apply Hx. eapply nth_error_In; eauto. }
      unfold toggle_each at 1, classList_toggle. rewrite Hne.
      do 2 f_equal. lia.
Qed.

(** When no slot of the pass matches the index, every element of the
    array ends without the token, whatever the array repeats. *)
Lemma pass_no_match (index : Z) (l : list Element) :
  forall (i : Z) (d : Document),
    (index < i \/ i + Z.of_nat (List.length l) <= index)%Z ->
    forall e, In e l ->
         contains (forEach_from (toggle_each index) l i d e) "Active" = false.
Proof.
  induction l as [|x l IH]; intros i d Hr e He; [destruct He|].
  simpl. simpl List.length in Hr.
  destruct (in_dec Nat.eq_dec e l) as [Hin|Hnin].
  - apply IH; [lia|assumption].
  - destruct He as [->|He]; [|contradiction].
    rewrite pass_frame by assumption.
    unfold toggle_each, classList_toggle. rewrite Nat.eqb_refl.
    replace (Z.eqb i index) with false by (symmetry; apply Z.eqb_neq; lia).
    apply contains_toggle_same.
Qed.

(** Tokens other than [Active] are never touched. *)
Lemma pass_other_tokens (index : Z) (l : list Element) (t : string) :
  t <> "Active"%string ->
  forall (i : Z) (d : Document) (e : Element),
    contains (forEach_from (toggle_each index) l i d e) t = contains (d e) t.
Proof.
  intros Ht. induction l as [|x l IH]; intros i d e; simpl; [reflexivity|].
  rewrite IH. unfold toggle_each, classList_toggle.
  destruct (Nat.eqb e x) eqn:E; [|reflexivity].
  apply Nat.eqb_eq in E. subst.
  apply contains_toggle_other. congruence.
Qed.

(** ** [activateIndicator] *)

Lemma activate_frame (g : Gallery) (index : Z) (d : Document) (e : Element) :
  ~ In e (Indicators g) -> activateIndicator g index d e = d e.
Proof. apply pass_frame. Qed.

Lemma activate_at (g : Gallery) (index : Z) (d : Document)
      (j : nat) (e : Element) :
  NoDup (Indicators g) ->
  nth_error (Indicators g) j = Some e ->
  activateIndicator g index d e
  = toggle (d e) "Active" (Z.eqb (Z.of_nat j) index).
Proof.
  intros Hnd Hj. unfold activateIndicator, forEach.
  now rewrite (pass_at index _ Hnd 0%Z d j e Hj).
Qed.

Lemma isActive_activate (g : Gallery) (index : Z) (d : Document)
      (j : nat) (e : Element) :
  NoDup (Indicators g) ->
  nth_error (Indicators g) j = Some e ->
  isActive (activateIndicator g index d) e = Z.eqb (Z.of_nat j) index.
Proof.
  intros Hnd Hj. unfold isActive, classList.
  rewrite (activate_at g index d j e Hnd Hj).
  apply contains_toggle_same.
Qed.

Lemma activate_out_of_range (g : Gallery) (index : Z) (d : Document) :
  (index < 0 \/ Z.of_nat (List.length (Indicators g)) <= index)%Z ->
  forall e, In e (Indicators g) ->
       isActive (activateIndicator g index d) e = false.
Proof.
  intros Hr e He. unfold isActive, classList, activateIndicator, forEach.
  apply pass_no_match; [lia|assumption].
Qed.

Lemma activate_other_tokens (g : Gallery) (index : Z) (d : Document)
      (e : Element) (t : string) :
  t <> "Active"%string ->
  contains (classList (activateIndicator g index d) e) t
  = contains (classList d e) t.
Proof. intros Ht. now apply pass_other_tokens. Qed.

(** Removing the token undoes an earlier addition. *)
Lemma toggle_add_after_remove_absorbs (c : DOMTokenList) (t : string) :
  toggle (toggle c t true) t false = toggle c t false.
Proof.
  destruct (contains c t) eqn:E.
  - unfold toggle at 2. now rewrite E.
  - unfold toggle at 2. rewrite E.
    unfold toggle. rewrite contains_app_same, E.
    unfold remove. rewrite filter_app. simpl. rewrite String.eqb_refl. simpl.
    rewrite app_nil_r.
    unfold contains in E.
    induction c as [|x c IH]; simpl in *; [reflexivity|].
    apply orb_false_iff in E as [Ex Ec]. rewrite Ex. simpl. f_equal.
    now apply IH.
Qed.

(** What one pass does to the class list of a single element is one of
    four things, whatever the array repeats: nothing, adding the token,
    removing it, or removing it and adding it at the end. *)
Lemma pass_shape (index : Z) (e : Element) (l : list Element) :
  forall i : Z,
    (forall d, forEach_from (toggle_each index) l i d e = d e)
    \/ (forall d, forEach_from (toggle_each index) l i d e
              = toggle (d e) "Active" true)
    \/ (forall d, forEach_from (toggle_each index) l i d e
              = toggle (d e) "Active" false)
    \/ (forall d, forEach_from (toggle_each index) l i d e
              = toggle (toggle (d e) "Active" false) "Active" true).
Proof.
  induction l as [|x l IH]; intros i; [left; reflexivity|].
  cbn [forEach_from].
  assert (Hx : forall d, toggle_each index x i d e
                    = if Nat.eqb e x
                      then toggle (d e) "Active" (Z.eqb i index) else d e).
  { intros d. unfold toggle_each, classList_toggle.
    destruct (Nat.eqb e x) eqn:E; [|reflexivity].
    apply Nat.eqb_eq in E. now subst. }
  destruct (Nat.eqb e x).
  - destruct (IH (i + 1)%Z) as [H|[H|[H|H]]], (Z.eqb i index).
    + right. left. intros d. now rewrite H, Hx.
    + right. right. left. intros d. now rewrite H, Hx.
    + right. left. intros d. rewrite H, Hx. apply toggle_idempotent.
    + right. right. right. intros d. now rewrite H, Hx.
    + right. right. left. intros d. rewrite H, Hx.
      apply toggle_add_after_remove_absorbs.
    + right. right. left. intros d. rewrite H, Hx. apply toggle_idempotent.
    + right. right. right. intros d. rewrite H, Hx.
      now rewrite toggle_add_after_remove_absorbs.
    + right. right. right. intros d. rewrite H, Hx.
      now rewrite toggle_idempotent.
  - destruct (IH (i + 1)%Z) as [H|[H|[H|H]]].
    + left. intros d. now rewrite H, Hx.
    + right. left. intros d. now rewrite H, Hx.
    + right. right. left. intros d. now rewrite H, Hx.
    + right. right. right. intros d. now rewrite H, Hx.
Qed.

Lemma activate_idempotent (g : Gallery) (index : Z) (d : Document) :
  forall e, activateIndicator g index (activateIndicator g index d) e
       = activateIndicator g index d e.
Proof.
  intros e. unfold activateIndicator, forEach.
  destruct (pass_shape index e (Indicators g) 0%Z) as [H|[H|[H|H]]];
    rewrite !H; try reflexivity.
  - apply toggle_idempotent.
  - apply toggle_idempotent.
  - rewrite toggle_add_after_remove_absorbs. now rewrite toggle_idempotent.
Qed.

(** ** Counting active indicators *)

Lemma count_single (p : Element -> bool) (index : Z) (l : list Element) :
  forall i : Z,
    (forall j e, nth_error l j = Some e ->
            p e = Z.eqb (i + Z.of_nat j) index) ->
    List.length (filter p l)
    = if (Z.leb i index && Z.ltb index (i + Z.of_nat (List.length l)))%bool
      then 1%nat else 0%nat.
Proof.
  induction l as [|x l IH]; intros i Hp.
  - simpl. destruct (Z.leb i index) eqn:E1; simpl; [|reflexivity].
    replace (Z.ltb index (i + 0)) with false; [reflexivity|].
    symmetry. apply Z.ltb_ge. apply Z.leb_le in E1. lia.
  - assert (Hp' : forall j e, nth_error l j = Some e ->
                         p e = Z.eqb (i + 1 + Z.of_nat j) index).
    { intros j e Hj. rewrite (Hp (S j) e Hj). f_equal. lia. }
    specialize (IH (i + 1)%Z Hp').
    change (filter p (x :: l))
      with (if p x then x :: filter p l else filter p l).
    rewrite (Hp 0%nat x eq_refl).
    change (List.length (x :: l)) with (S (List.length l)).
    rewrite Nat2Z.inj_succ.
    destruct (Z.eqb_spec (i + Z.of_nat 0) index);
      cbn [List.length]; rewrite IH;
      destruct (Z.leb_spec (i + 1) index),
               (Z.ltb_spec index (i + 1 + Z.of_nat (List.length l))),
               (Z.leb_spec i index),
               (Z.ltb_spec index (i + Z.succ (Z.of_nat (List.length l))));
      cbn [andb]; try reflexivity; lia.
Qed.

Lemma countActive_activate (g : Gallery) (index : Z) (d : Document) :
  NoDup (Indicators g) ->
  countActive g (activateIndicator g index d)
  = if (Z.leb 0 index
        && Z.ltb index (Z.of_nat (List.length (Indicators g))))%bool
    then 1%nat else 0%nat.
Proof.
  intros Hnd. unfold countActive.
  rewrite (count_single _ index (Indicators g) 0%Z); [reflexivity|].
  intros j e Hj. now apply isActive_activate.
Qed.

(** ** [indexOf] *)

Lemma indexOf_from_absent (l : list Element) (x : Element) :
  forall i, ~ In x l -> indexOf_from l x i = (-1)%Z.
Proof.
  induction l as [|y l IH]; intros i Hn; simpl; [reflexivity|].
  destruct (Nat.eqb y x) eqn:E.
  - apply Nat.eqb_eq in E. exfalso. apply Hn. now left.
  - apply IH. intro. apply Hn. now right.
Qed.

Lemma indexOf_from_nth (l : list Element) (x : Element) :
  NoDup l ->
  forall (i : Z) (j : nat),
    nth_error l j = Some x -> indexOf_from l x i = (i + Z.of_nat j)%Z.
Proof.
  induction 1 as [|y l Hy Hnd IH]; intros i j Hj.
  - destruct j; discriminate.
  - destruct j as [|j]; simpl in Hj |- *.
    + injection Hj as ->. rewrite Nat.eqb_refl. lia.
    + assert (Hne : Nat.eqb y x = false).
      { apply Nat.eqb_neq. intros ->. apply Hy. eapply nth_error_In; eauto. }
      rewrite Hne, (IH _ j Hj). lia.
Qed.

Lemma indexOf_absent (l : list Element) (x : Element) :
  ~ In x l -> indexOf l x = (-1)%Z.
Proof. apply indexOf_from_absent. Qed.

Lemma indexOf_nth (l : list Element) (x : Element) (j : nat) :
  NoDup l -> nth_error l j = Some x -> indexOf l x = Z.of_nat j.
Proof. intros Hnd Hj. unfold indexOf. now rewrite (indexOf_from_nth l x Hnd 0%Z j Hj). Qed.

(** ** The callback *)

Lemma forEach_from_on_entry (g : Gallery)
      (entries : list IntersectionObserverEntry) :
  forall (i : Z) (d : Document),
    forEach_from (on_entry g) entries i d
    = fold_left (fun d entry => on_entry g entry 0%Z d) entries d.
Proof.
  induction entries as [|x l IH]; intros i d; simpl; [reflexivity|].
  now rewrite IH.
Qed.

Lemma observed_app (g : Gallery) (l1 l2 : list IntersectionObserverEntry)
      (d : Document) :
  onIntersectionObserved g (l1 ++ l2) d
  = onIntersectionObserved g l2 (onIntersectionObserved g l1 d).
Proof.
  unfold onIntersectionObserved, forEach.
  rewrite !forEach_from_on_entry. apply fold_left_app.
Qed.

Lemma observed_cons (g : Gallery) (x : IntersectionObserverEntry)
      (l : list IntersectionObserverEntry) (d : Document) :
  onIntersectionObserved g (x :: l) d
  = onIntersectionObserved g l (on_entry g x 0%Z d).
Proof.
  unfold onIntersectionObserved, forEach. simpl.
  now rewrite !forEach_from_on_entry.
Qed.

Lemma observed_ignored (g : Gallery)
      (entries : list IntersectionObserverEntry) (d : Document) :
  forallb (fun entry => negb (qualifies entry)) entries = true ->
  onIntersectionObserved g entries d = d.
Proof.
  revert d. induction entries as [|x l IH]; intros d H; [reflexivity|].
  simpl in H. apply andb_true_iff in H as [Hx Hl].
  rewrite observed_cons. unfold on_entry.
  apply negb_true_iff in Hx. rewrite Hx. now apply IH.
Qed.

(** ** Comparison of Numbers *)

Lemma SFltb_not_SFleb (a b : spec_float) :
  SFltb a b = true -> SFleb b a = false.
Proof.
  unfold SFltb, SFleb.
  destruct a as [sa|sa| |sa ma ea], b as [sb|sb| |sb mb eb]; simpl;
    try discriminate;
    try (destruct sa; simpl; congruence);
    try (destruct sb; simpl; congruence);
    try (destruct sa, sb; simpl; congruence).
  pose proof (Pos.compare_cont_antisym ma mb Eq) as Hm. simpl in Hm.
  destruct sa, sb; simpl; try congruence;
    rewrite (Z.compare_antisym ea eb);
    destruct (Z.compare ea eb); simpl; try congruence;
    rewrite <- Hm;
    destruct (Pos.compare_cont Eq ma mb); simpl; congruence.
Qed.

Lemma Number_lt_not_ge (a b : float) :
  PrimFloat.ltb a b = true -> Number_ge a b = false.
Proof.
  unfold Number_ge. rewrite FloatAxioms.ltb_spec, FloatAxioms.leb_spec. apply SFltb_not_SFleb.
Qed.

(** ** More on [indexOf] and on batches *)

Lemma indexOf_from_first (l : list Element) (x : Element) :
  In x l ->
  forall i : Z,
  exists j : nat,
    nth_error l j = Some x /\ indexOf_from l x i = (i + Z.of_nat j)%Z.
Proof.
  induction l as [|y l IH]; intros Hin i; [destruct Hin|].
  simpl. destruct (Nat.eqb y x) eqn:E.
  - apply Nat.eqb_eq in E. subst. exists 0%nat. split; [reflexivity|lia].
  - destruct Hin as [->|Hin]; [now rewrite Nat.eqb_refl in E|].
    destruct (IH Hin (i + 1)%Z) as (j & Hj & Hi).
    exists (S j). split; [exact Hj|lia].
Qed.

Lemma indexOf_first (l : list Element) (x : Element) :
  In x l ->
  exists j : nat, nth_error l j = Some x /\ indexOf l x = Z.of_nat j.
Proof. intros Hin. apply (indexOf_from_first l x Hin 0%Z). Qed.

Lemma deliver_concat (g : Gallery)
      (batches : list (list IntersectionObserverEntry)) :
  forall d, deliver g batches d = onIntersectionObserved g (List.concat batches) d.
Proof.
  unfold deliver.
  induction batches as [|b bs IH]; intros d; simpl; [reflexivity|].
  now rewrite IH, observed_app.
Qed.

Lemma count_none (p : Element -> bool) (l : list Element) :
  (forall e, In e l -> p e = false) -> List.length (filter p l) = 0%nat.
Proof.
  induction l as [|x l IH]; intros H; simpl; [reflexivity|].
  rewrite (H x (or_introl eq_refl)). apply IH.
  intros e He. apply H. now right.
Qed.

(** Every step of the callback keeps at most one indicator active. *)
Lemma on_entry_at_most_one (g : Gallery) (entry : IntersectionObserverEntry)
      (d : Document) :
  NoDup (Indicators g) ->
  (countActive g d <= 1)%nat ->
  (countActive g (on_entry g entry 0%Z d) <= 1)%nat.
Proof.
  intros Hnd H. unfold on_entry.
  destruct (qualifies entry); [|exact H].
  rewrite countActive_activate by assumption.
  destruct (_ && _)%bool; lia.
Qed.

Lemma observed_at_most_one (g : Gallery)
      (entries : list IntersectionObserverEntry) :
  NoDup (Indicators g) ->
  forall d, (countActive g d <= 1)%nat ->
       (countActive g (onIntersectionObserved g entries d) <= 1)%nat.
Proof.
  intros Hnd. induction entries as [|x l IH]; intros d H; [exact H|].
  rewrite observed_cons. apply IH. now apply on_entry_at_most_one.
Qed.

End GalleryFacts.

(* ================================================================== *)
(** * Properties of the page scan *)
(* ================================================================== *)

Module PageFacts.
Import DOM Gallery Page.

Lemma descendants_distinct (t : Tree) (e : Element) : NoDup (descendants t e).
Proof. apply seq_NoDup. Qed.

(** Two elements, neither below the other, have no descendant in
    common. *)
Lemma descendants_apart (t : Tree) (a b : Element) :
  a <> b ->
  ~ In a (descendants t b) ->
  ~ In b (descendants t a) ->
  forall x, In x (descendants t a) -> ~ In x (descendants t b).
Proof.
  unfold descendants. intros Hab Ha Hb x Hxa Hxb.
  rewrite in_seq in *. lia.
Qed.

Lemma querySelectorAll_distinct (t : Tree) (d : Document) (scope : Element)
      (tag class : string) :
  NoDup (querySelectorAll t d scope tag class).
Proof. apply NoDup_filter, descendants_distinct. Qed.

Lemma querySelectorAll_below (t : Tree) (d : Document) (scope : Element)
      (tag class : string) (x : Element) :
  In x (querySelectorAll t d scope tag class) -> In x (descendants t scope).
Proof. unfold querySelectorAll. rewrite filter_In. tauto. Qed.

Lemma setup_Indicators (t : Tree) (d : Document) (indi_list : Element)
      (g : Gallery) (o : IntersectionObserver) :
  setup t d indi_list = Some (g, o) ->
  Indicators g = querySelectorAll t d indi_list "li" "ScrollIndicator".
Proof.
  unfold setup. destruct (parentElement t indi_list); [|discriminate].
  intros H. injection H as <- _. reflexivity.
Qed.

(** The arrays the script binds hold pairwise distinct elements, and the
    observer watches exactly the images. *)
Lemma setup_distinct (t : Tree) (d : Document) (indi_list : Element)
      (g : Gallery) (o : IntersectionObserver) :
  setup t d indi_list = Some (g, o) ->
  NoDup (Indicators g) /\ NoDup (Images g) /\ observed o = Images g.
Proof.
  unfold setup. destruct (parentElement t indi_list); [|discriminate].
  intros H. injection H as <- <-. cbn [Indicators Images observed].
  split; [apply querySelectorAll_distinct|split; [|reflexivity]].
  apply NoDup_filter, descendants_distinct.
Qed.

Lemma script_on_sample :
  map fst (script Sample.page Sample.served)
  = [Sample.galleryA; Sample.galleryB].
Proof. vm_compute. reflexivity. Qed.

End PageFacts.

(* ================================================================== *)
(** * The gallery script against its specification *)
(* ================================================================== *)

Import DOM Gallery GalleryFacts PageFacts.

(** Membership in a literal array. *)
Ltac absent :=
  cbn; intros Hin;
  repeat (destruct Hin as [Hin|Hin]; [discriminate Hin|]); exact Hin.

Ltac present := cbn; repeat (first [left; reflexivity | right]).

(** C1, as written: a notification whose Item is not in the Item
    sequence leaves the state of every Indicator unchanged.  It fails: a
    qualifying notification for an element that is not one of the
    gallery's images (here an image of the other gallery) runs the
    activation with index -1 and deactivates the active Indicator. *)
Lemma unknown_item_deactivates :
  let g := Sample.galleryA in
  let entry := Sample.notify 19 0.9%float in
  let d := Sample.first_active in
  ~ In (target entry) (Images g)
  /\ In 11 (Indicators g)
  /\ isActive d 11 = true
  /\ isActive (onIntersectionObserved g [entry] d) 11 = false.
Proof.
  cbv zeta. split; [|split; [|split]].
  - absent.
  - present.
  - reflexivity.
  - vm_compute. reflexivity.
Qed.

(** C1, amended: a notification whose Item is not in the Item sequence
    activates no Indicator.  When it does not qualify nothing changes;
    when it qualifies the activation runs with index -1, after which every
    Indicator of the gallery is inactive.  In both cases inactive
    Indicators stay inactive, elements outside the Indicator sequence keep
    their class list and tokens other than Active are untouched. *)
Theorem unknown_item_activates_nothing
        (g : Gallery) (entry : IntersectionObserverEntry) (d : Document) :
  ~ In (target entry) (Images g) ->
  let d' := onIntersectionObserved g [entry] d in
  (qualifies entry = false -> d' = d)
  /\ (qualifies entry = true ->
      d' = activateIndicator g (-1) d
      /\ forall e, In e (Indicators g) -> isActive d' e = false)
  /\ (forall e, isActive d e = false -> isActive d' e = false)
  /\ (forall e, ~ In e (Indicators g) -> classList d' e = classList d e)
  /\ (forall e t, t <> "Active"%string ->
             contains (classList d' e) t = contains (classList d e) t).
Proof.
  intros Hn d'.
  assert (Hd' : d' = if qualifies entry
                     then activateIndicator g (-1) d else d).
  { unfold d', onIntersectionObserved, forEach. simpl. unfold on_entry.
    now rewrite (indexOf_absent _ _ Hn). }
  assert (Hout : forall e, In e (Indicators g) ->
                      isActive (activateIndicator g (-1) d) e = false).
  { intros e He. apply activate_out_of_range; [lia|assumption]. }
  rewrite Hd'. clear Hd'. split; [|split; [|split; [|split]]].
  - intros E. now rewrite E.
  - intros E. rewrite E. split; [reflexivity|exact Hout].
  - intros e He. destruct (qualifies entry); [|assumption].
    destruct (in_dec Nat.eq_dec e (Indicators g)) as [Hin|Hnin].
    + now apply Hout.
    + unfold isActive, classList in *. now rewrite activate_frame.
  - intros e He. destruct (qualifies entry); [|reflexivity].
    unfold classList. now apply activate_frame.
  - intros e t Ht. destruct (qualifies entry); [|reflexivity].
    now apply activate_other_tokens.
Qed.

Lemma unknown_item_activates_nothing_witness :
  ~ In 19 (Images Sample.galleryA)
  /\ isActive (onIntersectionObserved Sample.galleryA
                 [Sample.notify 19 0.9%float] Sample.first_active) 11 = false.
Proof.
  assert (Hn : ~ In 19 (Images Sample.galleryA)) by absent.
  split; [exact Hn|].
  destruct (unknown_item_activates_nothing Sample.galleryA
              (Sample.notify 19 0.9%float) Sample.first_active Hn)
    as (_ & H2 & _).
  apply H2; [reflexivity | present].
Defined.

(** C2: starting from the served markup, in which no Indicator is
    active, after any sequence of delivered batches at most one Indicator
    of the gallery is active, and as long as no qualifying notification
    was delivered none is.  The Indicators of a gallery are pairwise
    distinct elements ([setup_distinct]). *)
Theorem at_most_one_indicator_active
        (g : Gallery) (served : Document)
        (batches : list (list IntersectionObserverEntry)) :
  NoDup (Indicators g) ->
  as_served g served ->
  (countActive g (deliver g batches served) <= 1)%nat
  /\ (forallb (forallb (fun entry => negb (qualifies entry))) batches = true ->
      countActive g (deliver g batches served) = 0%nat).
Proof.
  unfold as_served. intros Hnd H0. rewrite deliver_concat. split.
  - apply observed_at_most_one; [assumption|lia].
  - intros Hq. rewrite observed_ignored; [assumption|].
    clear - Hq. induction batches as [|b bs IH]; [reflexivity|].
    simpl in Hq |- *. apply andb_true_iff in Hq as [Hb Hbs].
    rewrite forallb_app, Hb. now apply IH.
Qed.

Lemma at_most_one_indicator_active_witness :
  (countActive Sample.galleryA
     (deliver Sample.galleryA
        [[Sample.notify 5 0.0%float]; [Sample.notify 6 0.7%float];
         [Sample.notify 7 0.3%float; Sample.notify 8 1.0%float]]
        Sample.served) <= 1)%nat.
Proof.
  apply (at_most_one_indicator_active Sample.galleryA Sample.served).
  - repeat constructor; absent.
  - reflexivity.
Defined.

(** C3: a notification that reports not intersecting, or whose ratio is
    strictly below 0.6, changes nothing; one that reports intersecting
    with ratio >= 0.6 runs the activation at the index of its Item, after
    which the Indicator at that index is active (the Item being one of the
    gallery's Items, each Item having its Indicator and the Indicators
    being pairwise distinct elements).  The bound is inclusive: the Number
    0.6 passes the test, the Number 0.59 does not. *)
Theorem threshold_decides_activation
        (g : Gallery) (entry : IntersectionObserverEntry) (d : Document) :
  (isIntersecting entry = false
   \/ PrimFloat.ltb (intersectionRatio entry) 0.6 = true ->
   onIntersectionObserved g [entry] d = d)
  /\ (isIntersecting entry = true ->
      Number_ge (intersectionRatio entry) 0.6 = true ->
      onIntersectionObserved g [entry] d
      = activateIndicator g (indexOf (Images g) (target entry)) d
      /\ (NoDup (Indicators g) ->
          List.length (Indicators g) = List.length (Images g) ->
          In (target entry) (Images g) ->
          exists indicator,
            nth_error (Indicators g)
                      (Z.to_nat (indexOf (Images g) (target entry)))
            = Some indicator
            /\ isActive (onIntersectionObserved g [entry] d) indicator = true))
  /\ qualifies {| target := target entry; isIntersecting := true;
                  intersectionRatio := 0.6 |} = true
  /\ qualifies {| target := target entry; isIntersecting := true;
                  intersectionRatio := 0.59 |} = false.
Proof.
  assert (Hone : onIntersectionObserved g [entry] d = on_entry g entry 0%Z d)
    by reflexivity.
  rewrite Hone. unfold on_entry, qualifies.
  split; [|split; [|split; reflexivity]].
  - intros [Hi|Hr].
    + now rewrite Hi.
    + apply Number_lt_not_ge in Hr. fold threshold in Hr.
      now rewrite Hr, andb_false_r.
  - intros Hi Hr. fold threshold in Hr. rewrite Hi, Hr. simpl.
    split; [reflexivity|].
    intros Hnd Hlen Hin.
    destruct (indexOf_first _ _ Hin) as (j & Hj & Hidx).
    rewrite Hidx, Nat2Z.id.
    assert (Hlt : (j < List.length (Indicators g))%nat).
    { rewrite Hlen. apply nth_error_Some. congruence. }
    destruct (nth_error (Indicators g) j) as [indicator|] eqn:E.
    + exists indicator. split; [reflexivity|].
      rewrite (isActive_activate g _ d j indicator Hnd E).
      apply Z.eqb_refl.
    + apply nth_error_None in E. lia.
Qed.

Lemma threshold_decides_activation_witness :
  onIntersectionObserved Sample.galleryA [Sample.notify 6 0.3%float]
                         Sample.first_active
  = Sample.first_active
  /\ isActive (onIntersectionObserved Sample.galleryA
                 [Sample.notify 6 0.75%float] Sample.first_active) 13 = true.
Proof.
  split.
  - apply (threshold_decides_activation Sample.galleryA
             (Sample.notify 6 0.3%float) Sample.first_active).
    right. reflexivity.
  - destruct (threshold_decides_activation Sample.galleryA
                (Sample.notify 6 0.75%float) Sample.first_active)
      as (_ & H & _).
    destruct (H eq_refl eq_refl) as (_ & H').
    destruct H' as (indicator & Hnth & Hact).
    + repeat constructor; absent.
    + reflexivity.
    + present.
    + vm_compute in Hnth. injection Hnth as <-. exact Hact.
Defined.

(** C4: whatever the state before and however the three notifications
    are split into batches, after item 2 at ratio 0.9, item 2 at ratio 0.0
    and item 5 at ratio 0.8 (all reported intersecting), delivered in this
    order, exactly the Indicator at index 5 is active; the ratio-0.0
    notification changes nothing.  The gallery has its Items 2 and 5, an
    Indicator for each Item, and its Items and its Indicators are pairwise
    distinct elements ([setup_distinct]). *)
Theorem later_activation_supersedes
        (g : Gallery) (d : Document) (item2 item5 : Element)
        (batches : list (list IntersectionObserverEntry)) :
  NoDup (Images g) ->
  NoDup (Indicators g) ->
  List.length (Indicators g) = List.length (Images g) ->
  nth_error (Images g) 2 = Some item2 ->
  nth_error (Images g) 5 = Some item5 ->
  List.concat batches
  = [ {| target := item2; isIntersecting := true; intersectionRatio := 0.9 |};
      {| target := item2; isIntersecting := true; intersectionRatio := 0.0 |};
      {| target := item5; isIntersecting := true; intersectionRatio := 0.8 |} ] ->
  (forall j indicator,
      nth_error (Indicators g) j = Some indicator ->
      isActive (deliver g batches d) indicator = Nat.eqb j 5)
  /\ countActive g (deliver g batches d) = 1%nat
  /\ (forall d0,
        onIntersectionObserved g
          [ {| target := item2; isIntersecting := true;
               intersectionRatio := 0.0 |} ] d0 = d0).
Proof.
  intros HndI Hnd Hlen H2 H5 Hb.
  rewrite deliver_concat, Hb.
  rewrite !observed_cons. change (onIntersectionObserved g [] ?x) with x.
  unfold on_entry.
  replace (qualifies {| target := item2; isIntersecting := true;
                        intersectionRatio := 0.9 |}) with true by reflexivity.
  replace (qualifies {| target := item2; isIntersecting := true;
                        intersectionRatio := 0.0 |}) with false by reflexivity.
  replace (qualifies {| target := item5; isIntersecting := true;
                        intersectionRatio := 0.8 |}) with true by reflexivity.
  cbv zeta. cbn [target].
  rewrite (indexOf_nth _ _ 5 HndI H5).
  assert (Hlt : (5 < List.length (Indicators g))%nat).
  { rewrite Hlen. apply nth_error_Some. congruence. }
  split; [|split].
  - intros j indicator Hj.
    rewrite (isActive_activate g _ _ j indicator Hnd Hj).
    destruct (Nat.eqb_spec j 5) as [->|Hne]; [reflexivity|].
    apply Z.eqb_neq. lia.
  - rewrite countActive_activate by assumption.
    replace (Z.ltb (Z.of_nat 5) (Z.of_nat (List.length (Indicators g))))
      with true by (symmetry; apply Z.ltb_lt; lia).
    reflexivity.
  - reflexivity.
Qed.

Lemma later_activation_supersedes_witness :
  isActive (deliver Sample.galleryA
              [[Sample.notify 6 0.9%float; Sample.notify 6 0.0%float];
               [Sample.notify 9 0.8%float]]
              Sample.first_active) 16 = true
  /\ isActive (deliver Sample.galleryA
                 [[Sample.notify 6 0.9%float; Sample.notify 6 0.0%float];
                  [Sample.notify 9 0.8%float]]
                 Sample.first_active) 13 = false.
Proof.
  destruct (later_activation_supersedes Sample.galleryA Sample.first_active
              6 9
              [[Sample.notify 6 0.9%float; Sample.notify 6 0.0%float];
               [Sample.notify 9 0.8%float]]) as (H & _).
  - repeat constructor; absent.
  - repeat constructor; absent.
  - reflexivity.
  - reflexivity.
  - reflexivity.
  - reflexivity.
  - split.
    + apply (H 5%nat 16). reflexivity.
    + apply (H 2%nat 13). reflexivity.
Defined.

(** C5: activating an index twice in succession gives every element the
    class list that activating it once gives; so delivering a qualifying
    notification a second time changes no Indicator. *)
Theorem activation_idempotent (g : Gallery) (d : Document) :
  (forall (index : Z) (e : Element),
      classList (activateIndicator g index (activateIndicator g index d)) e
      = classList (activateIndicator g index d) e)
  /\ (forall (entry : IntersectionObserverEntry) (e : Element),
        qualifies entry = true ->
        classList (onIntersectionObserved g [entry]
                     (onIntersectionObserved g [entry] d)) e
        = classList (onIntersectionObserved g [entry] d) e).
Proof.
  split.
  - intros index e. unfold classList. apply activate_idempotent.
  - intros entry e Hq.
    assert (Hone : forall x, onIntersectionObserved g [entry] x
                        = activateIndicator g (indexOf (Images g) (target entry)) x).
    { intros x. change (onIntersectionObserved g [entry] x)
        with (on_entry g entry 0%Z x).
      unfold on_entry. now rewrite Hq. }
    rewrite !Hone. unfold classList. apply activate_idempotent.
Qed.

Lemma activation_idempotent_witness :
  classList (onIntersectionObserved Sample.galleryA
               [Sample.notify 7 0.9%float]
               (onIntersectionObserved Sample.galleryA
                  [Sample.notify 7 0.9%float] Sample.first_active)) 14
  = classList (onIntersectionObserved Sample.galleryA
                 [Sample.notify 7 0.9%float] Sample.first_active) 14.
Proof.
  apply (activation_idempotent Sample.galleryA Sample.first_active).
  reflexivity.
Defined.

(** C6: for an in-range index the activation leaves the Indicator at
    that index active and every other Indicator of the gallery inactive,
    whatever the state before.  The Indicators of a gallery are pairwise
    distinct elements ([setup_distinct]). *)
Theorem activation_selects_exactly_one
        (g : Gallery) (d : Document) (i : nat) :
  NoDup (Indicators g) ->
  (i < List.length (Indicators g))%nat ->
  (exists indicator,
      nth_error (Indicators g) i = Some indicator
      /\ isActive (activateIndicator g (Z.of_nat i) d) indicator = true)
  /\ (forall j other,
        j <> i ->
        nth_error (Indicators g) j = Some other ->
        isActive (activateIndicator g (Z.of_nat i) d) other = false).
Proof.
  intros Hnd Hlt. split.
  - destruct (nth_error (Indicators g) i) as [indicator|] eqn:E.
    + exists indicator. split; [reflexivity|].
      rewrite (isActive_activate g _ d i indicator Hnd E). apply Z.eqb_refl.
    + apply nth_error_None in E. lia.
  - intros j other Hne Hj.
    rewrite (isActive_activate g _ d j other Hnd Hj).
    apply Z.eqb_neq. lia.
Qed.

Lemma activation_selects_exactly_one_witness :
  isActive (activateIndicator Sample.galleryA 4 Sample.first_active) 11 = false.
Proof.
  destruct (activation_selects_exactly_one Sample.galleryA
              Sample.first_active 4) as (_ & H).
  - repeat constructor; absent.
  - cbn. lia.
  - apply (H 0%nat 11); [discriminate|reflexivity].
Defined.

(** C7: let A and B be the galleries the script sets up for two
    different indicator lists of a page, neither list inside the other.
    Whatever the state, no batch handled by A changes the class list of
    an Indicator of B.  After each gallery handled a qualifying
    notification for its item 1 (in either order), each has exactly its
    own Indicator 1 active, and B's Indicators are as B's own activation
    alone leaves them. *)
Theorem galleries_do_not_interfere
        (t : Page.Tree) (markup : Document) (listA listB : Element)
        (A B : Gallery) (oA oB : Page.IntersectionObserver) (d : Document) :
  Page.setup t markup listA = Some (A, oA) ->
  Page.setup t markup listB = Some (B, oB) ->
  listA <> listB ->
  ~ In listA (Page.descendants t listB) ->
  ~ In listB (Page.descendants t listA) ->
  (forall entries e,
      In e (Indicators B) ->
      classList (onIntersectionObserved A entries d) e = classList d e)
  /\ (forall nA nB,
        qualifies nA = true -> qualifies nB = true ->
        indexOf (Images A) (target nA) = 1%Z ->
        indexOf (Images B) (target nB) = 1%Z ->
        forall d',
          d' = onIntersectionObserved B [nB] (onIntersectionObserved A [nA] d)
          \/ d' = onIntersectionObserved A [nA] (onIntersectionObserved B [nB] d) ->
          (forall j e, nth_error (Indicators A) j = Some e ->
                  isActive d' e = Nat.eqb j 1)
          /\ (forall j e, nth_error (Indicators B) j = Some e ->
                     isActive d' e = Nat.eqb j 1)
          /\ (forall e, In e (Indicators B) ->
                   classList d' e
                   = classList (onIntersectionObserved B [nB] d) e)).
Proof.
  intros HsA HsB Hne HnA HnB.
  destruct (setup_distinct _ _ _ _ _ HsA) as (HndA & _).
  destruct (setup_distinct _ _ _ _ _ HsB) as (HndB & _).
  assert (Hdisj : forall e, In e (Indicators A) -> ~ In e (Indicators B)).
  { rewrite (setup_Indicators _ _ _ _ _ HsA), (setup_Indicators _ _ _ _ _ HsB).
    intros e HA HB.
    apply querySelectorAll_below in HA. apply querySelectorAll_below in HB.
    exact (descendants_apart t listA listB Hne HnA HnB e HA HB). }
  clear HsA HsB Hne HnA HnB.
  assert (Hframe : forall (G : Gallery) entries d0 e,
             ~ In e (Indicators G) ->
             onIntersectionObserved G entries d0 e = d0 e).
  { intros G entries. induction entries as [|x l IH]; intros d0 e Hn;
      [reflexivity|].
    rewrite observed_cons, IH by assumption.
    unfold on_entry. destruct (qualifies x); [|reflexivity].
    now apply activate_frame. }
  split.
  - intros entries e He. unfold classList. apply Hframe.
    intros HA. exact (Hdisj e HA He).
  - intros nA nB HqA HqB HiA HiB d' Hd'.
    assert (HA : forall x, onIntersectionObserved A [nA] x
                      = activateIndicator A 1 x).
    { intros x. change (onIntersectionObserved A [nA] x)
        with (on_entry A nA 0%Z x). unfold on_entry. now rewrite HqA, HiA. }
    assert (HB : forall x, onIntersectionObserved B [nB] x
                      = activateIndicator B 1 x).
    { intros x. change (onIntersectionObserved B [nB] x)
        with (on_entry B nB 0%Z x). unfold on_entry. now rewrite HqB, HiB. }
    assert (Hone : forall j, Z.eqb (Z.of_nat j) 1 = Nat.eqb j 1).
    { intros j. destruct (Nat.eqb_spec j 1) as [->|Hne]; [reflexivity|].
      apply Z.eqb_neq. lia. }
    rewrite !HA, !HB in Hd'. rewrite HB.
    assert (HinA : forall j e, nth_error (Indicators A) j = Some e ->
                          ~ In e (Indicators B)).
    { intros j e Hj. apply Hdisj. eapply nth_error_In; eauto. }
    assert (HinB : forall e, In e (Indicators B) -> ~ In e (Indicators A)).
    { intros e He HA'. exact (Hdisj e HA' He). }
    destruct Hd' as [-> | ->]; (split; [|split]).
    + intros j e Hj. unfold isActive, classList.
      rewrite activate_frame by (eapply HinA; eauto).
      rewrite <- Hone. now apply isActive_activate.
    + intros j e Hj. rewrite <- Hone. now apply isActive_activate.
    + intros e He. unfold classList.
      apply In_nth_error in He as [j Hj].
      rewrite (activate_at B 1 _ j e HndB Hj), (activate_at B 1 d j e HndB Hj).
      rewrite activate_frame; [reflexivity|].
      apply HinB. eapply nth_error_In; eauto.
    + intros j e Hj. rewrite <- Hone. now apply isActive_activate.
    + intros j e Hj. unfold isActive, classList.
      rewrite activate_frame
        by (apply HinB; eapply nth_error_In; eauto).
      rewrite <- Hone. now apply isActive_activate.
    + intros e He. unfold classList.
      now rewrite activate_frame by (now apply HinB).
Qed.

Lemma galleries_do_not_interfere_witness :
  classList (onIntersectionObserved Sample.galleryA
               [Sample.notify 5 0.9%float] Sample.first_active) 22
  = classList Sample.first_active 22.
Proof.
  destruct (galleries_do_not_interfere
              Sample.page Sample.served 10 21
              Sample.galleryA Sample.galleryB
              {| Page.root := Some 3; Page.observer_threshold := 0.6;
                 Page.observed := Images Sample.galleryA |}
              {| Page.root := Some 18; Page.observer_threshold := 0.6;
                 Page.observed := Images Sample.galleryB |}
              Sample.first_active) as (H & _).
  - reflexivity.
  - reflexivity.
  - discriminate.
  - absent.
  - absent.
  - apply H. present.
Defined.

(** C10: with an index that matches no slot (negative, or not below the
    number of Indicators) the activation leaves every Indicator of the
    gallery inactive, so none is active; [indexOf] yields such an index,
    -1, for an element that is not in the Item sequence. *)
Theorem out_of_range_activation_clears
        (g : Gallery) (d : Document) (index : Z) :
  (index < 0 \/ Z.of_nat (List.length (Indicators g)) <= index)%Z ->
  (forall e, In e (Indicators g) ->
        isActive (activateIndicator g index d) e = false)
  /\ countActive g (activateIndicator g index d) = 0%nat
  /\ (forall item, ~ In item (Images g) -> indexOf (Images g) item = (-1)%Z).
Proof.
  intros Hr.
  assert (H : forall e, In e (Indicators g) ->
                   isActive (activateIndicator g index d) e = false)
    by (now apply activate_out_of_range).
  split; [exact H|split].
  - unfold countActive. now apply count_none.
  - intros item. apply indexOf_absent.
Qed.

Lemma out_of_range_activation_clears_witness :
  countActive Sample.galleryA
              (activateIndicator Sample.galleryA (-1) Sample.first_active)
  = 0%nat.
Proof.
  apply (out_of_range_activation_clears Sample.galleryA Sample.first_active (-1)).
  left. lia.
Defined.

(* ================================================================== *)
(** * The upload script against its specification *)
(* ================================================================== *)

Module UploadFacts.
Import Upload.

Lemma append_files_spec (files : list File) :
  forall (formdata : FormData) (total_size : float),
    append_files files formdata total_size
    = (formdata
         ++ map (fun f => ("FileToUpload"%string, Blob f)) files,
       fold_left (fun ts f => (ts + size f)%float) files total_size).
Proof.
  unfold append_files.
  induction files as [|f files IH]; intros formdata total_size; simpl.
  - now rewrite app_nil_r.
  - rewrite IH. simpl. now rewrite <- app_assoc.
Qed.

(** The group captures everything before a final [/upload/]. *)
Lemma dot_star_base (rest : string) :
  (forall c, In c (list_ascii_of_string rest) -> line_terminator c = false) ->
  dot_star (rest ++ "/upload/") = Some rest.
Proof.
  induction rest as [|c rest IH]; intros H.
  - reflexivity.
  - cbn [String.append dot_star].
    rewrite (H c) by (now left).
    rewrite IH; [reflexivity|].
    intros c' Hc'. apply H. now right.
Qed.

Lemma serve_prefix_base (rest : string) :
  (forall c, In c (list_ascii_of_string rest) -> line_terminator c = false) ->
  serve_prefix (String "/" rest ++ "/upload/") = String "/" rest.
Proof.
  intros H. unfold serve_prefix, match_upload. cbn [String.append].
  now rewrite dot_star_base.
Qed.

End UploadFacts.

(* ================================================================== *)
(** * Bounds on binary64 division, multiplication and rounding *)
(* ================================================================== *)

Module Binary64Facts.
Import Upload Binary64.
Local Open Scope Z_scope.

Lemma digits2_log2 (p : positive) :
  Zpos (digits2_pos p) = Z.log2 (Zpos p) + 1.
Proof.
  induction p as [p IH|p IH|]; cbn [digits2_pos]; try reflexivity.
  - rewrite Pos2Z.inj_succ, IH.
    change (Zpos p~1) with (2 * Zpos p + 1).
    rewrite Z.log2_succ_double by lia. lia.
  - rewrite Pos2Z.inj_succ, IH.
    change (Zpos p~0) with (2 * Zpos p).
    rewrite Z.log2_double by lia. lia.
Qed.

Lemma Zdigits2_log2 (m : Z) : 0 < m -> Zdigits2 m = Z.log2 m + 1.
Proof. destruct m; try lia. intros _. apply digits2_log2. Qed.

Lemma Zdigits2_le (a b : Z) : 0 <= a <= b -> Zdigits2 a <= Zdigits2 b.
Proof.
  intros [Ha Hab].
  destruct (Z.eq_dec a 0) as [->|Hne].
  - destruct b; simpl; lia.
  - rewrite !Zdigits2_log2 by lia.
    pose proof (Z.log2_le_mono a b Hab). lia.
Qed.

Lemma Zdigits2_scaled (m k : Z) :
  0 < m -> 0 <= k -> Zdigits2 (m * 2 ^ k) = Zdigits2 m + k.
Proof.
  intros Hm Hk.
  assert (0 < 2 ^ k) by (apply Z.pow_pos_nonneg; lia).
  rewrite !Zdigits2_log2 by nia.
  rewrite Z.log2_mul_pow2 by lia. lia.
Qed.

Lemma fexp_eq (x : Z) : fexp prec emax x = Z.max (x - 53) (-1074).
Proof. reflexivity. Qed.

Lemma fexp_le (x y : Z) : x <= y -> fexp prec emax x <= fexp prec emax y.
Proof. rewrite !fexp_eq. lia. Qed.

Lemma shr_1_below (K : Z) (mrs : shr_record) :
  0 <= shr_m mrs ->
  below (2 * K) (shr_m mrs) (inexact mrs) ->
  0 <= shr_m (shr_1 mrs)
  /\ below K (shr_m (shr_1 mrs)) (inexact (shr_1 mrs)).
Proof.
  destruct mrs as [m r s]. unfold below, inexact. simpl shr_m. simpl shr_r. simpl shr_s.
  intros Hm [Hle Hlt].
  destruct m as [|[p|p|]|p]; try lia; simpl;
    (split; [lia|split; [lia|]]); intros H;
    try (rewrite ?orb_false_l in H; specialize (Hlt H)); lia.
Qed.

Lemma iter_shr_1_below (p : positive) :
  forall (K : Z) (mrs : shr_record),
    0 <= shr_m mrs ->
    below (K * 2 ^ Zpos p) (shr_m mrs) (inexact mrs) ->
    0 <= shr_m (iter_pos shr_1 p mrs)
    /\ below K (shr_m (iter_pos shr_1 p mrs)) (inexact (iter_pos shr_1 p mrs)).
Proof.
  induction p as [p IH|p IH|]; intros K mrs Hm Hb; cbn [iter_pos].
  - replace (K * 2 ^ Zpos p~1) with (2 * ((K * 2 ^ Zpos p) * 2 ^ Zpos p)) in Hb.
    2:{ change (Zpos p~1) with (2 * Zpos p + 1).
        rewrite Z.pow_add_r, Z.pow_1_r by lia.
        replace (2 * Zpos p) with (Zpos p + Zpos p) by lia.
        rewrite Z.pow_add_r by lia. ring. }
    destruct (shr_1_below _ _ Hm Hb) as [Hm1 Hb1].
    destruct (IH _ _ Hm1 Hb1) as [Hm2 Hb2].
    exact (IH _ _ Hm2 Hb2).
  - replace (K * 2 ^ Zpos p~0) with ((K * 2 ^ Zpos p) * 2 ^ Zpos p) in Hb.
    2:{ change (Zpos p~0) with (2 * Zpos p).
        replace (2 * Zpos p) with (Zpos p + Zpos p) by lia.
        rewrite Z.pow_add_r by lia. ring. }
    destruct (IH _ _ Hm Hb) as [Hm2 Hb2].
    exact (IH _ _ Hm2 Hb2).
  - apply shr_1_below; [assumption|].
    now replace (2 * K) with (K * 2 ^ 1) by (rewrite Z.pow_1_r; ring).
Qed.

Lemma shr_below (K : Z) (mrs : shr_record) (e n : Z) :
  0 <= shr_m mrs ->
  below (K * 2 ^ Z.max n 0) (shr_m mrs) (inexact mrs) ->
  snd (shr mrs e n) = e + Z.max n 0
  /\ 0 <= shr_m (fst (shr mrs e n))
  /\ below K (shr_m (fst (shr mrs e n))) (inexact (fst (shr mrs e n))).
Proof.
  intros Hm Hb. destruct n as [|p|p]; cbn [shr fst snd].
  - rewrite Z.max_id, Z.pow_0_r, Z.mul_1_r in Hb.
    split; [lia|auto].
  - replace (Z.max (Zpos p) 0) with (Zpos p) in * by lia.
    split; [reflexivity|]. now apply iter_shr_1_below.
  - replace (Z.max (Zneg p) 0) with 0 in * by lia.
    rewrite Z.pow_0_r, Z.mul_1_r in Hb. split; [lia|auto].
Qed.

Lemma inexact_of_loc (m : Z) (l : location) :
  inexact (shr_record_of_loc m l) = loc_inexact l
  /\ shr_m (shr_record_of_loc m l) = m.
Proof. destruct l as [|[| |]]; split; reflexivity. Qed.

Lemma pow2_split (a b : Z) : 0 <= a -> 0 <= b -> 2 ^ (a + b) = 2 ^ a * 2 ^ b.
Proof. intros. now rewrite Z.pow_add_r. Qed.

Lemma fexp_bound (mb eb m e : Z) :
  0 < mb ->
  fexp prec emax (Zdigits2 mb + eb) = eb ->
  e <= eb ->
  0 <= m <= mb * 2 ^ (eb - e) ->
  fexp prec emax (Zdigits2 m + e) <= eb.
Proof.
  intros Hmb Hcan He Hm.
  rewrite <- Hcan. apply fexp_le.
  pose proof (Zdigits2_le m (mb * 2 ^ (eb - e)) Hm) as Hd.
  rewrite Zdigits2_scaled in Hd by lia. lia.
Qed.

Lemma shr_fexp_below (mb eb m e : Z) (l : location) :
  0 < mb ->
  fexp prec emax (Zdigits2 mb + eb) = eb ->
  0 <= m -> e <= eb ->
  below (mb * 2 ^ (eb - e)) m (loc_inexact l) ->
  let r := shr_fexp prec emax m e l in
  e <= snd r <= eb
  /\ 0 <= shr_m (fst r)
  /\ below (mb * 2 ^ (eb - snd r)) (shr_m (fst r)) (inexact (fst r)).
Proof.
  intros Hmb Hcan Hm He Hb. unfold shr_fexp.
  set (n := fexp prec emax (Zdigits2 m + e) - e).
  assert (Hn : e + Z.max n 0 <= eb).
  { pose proof (fexp_bound mb eb m e Hmb Hcan He) as H.
    destruct Hb as [Hb _]. specialize (H (conj Hm Hb)). lia. }
  destruct (inexact_of_loc m l) as [Hi Hsm].
  destruct (shr_below (mb * 2 ^ (eb - (e + Z.max n 0)))
                      (shr_record_of_loc m l) e n) as (Hs & Hm' & Hb').
  - now rewrite Hsm.
  - rewrite Hi, Hsm. rewrite <- Z.mul_assoc, <- pow2_split by lia.
    now replace (eb - (e + Z.max n 0) + Z.max n 0) with (eb - e) by lia.
  - cbv zeta. rewrite Hs. split; [lia|split; assumption].
Qed.

Lemma round_nearest_even_below (K : Z) (mrs : shr_record) :
  0 <= shr_m mrs ->
  below K (shr_m mrs) (inexact mrs) ->
  0 <= round_nearest_even (shr_m mrs) (loc_of_shr_record mrs) <= K.
Proof.
  destruct mrs as [m r s]. unfold below, inexact. cbn [shr_m shr_r shr_s].
  intros Hm [Hle Hlt].
  destruct r, s; cbn [loc_of_shr_record round_nearest_even orb];
    try destruct (Z.even m); try specialize (Hlt eq_refl); lia.
Qed.

Lemma round_aux_below (mb eb mx ex : Z) (lx : location) :
  0 < mb ->
  fexp prec emax (Zdigits2 mb + eb) = eb ->
  eb <= emax - prec ->
  0 <= mx -> ex <= eb ->
  below (mb * 2 ^ (eb - ex)) mx (loc_inexact lx) ->
  match binary_round_aux prec emax false mx ex lx with
  | S754_zero false => True
  | S754_finite false m e => e <= eb /\ Zpos m <= mb * 2 ^ (eb - e)
  | _ => False
  end.
Proof.
  intros Hmb Hcan Hmax Hmx Hex Hb. unfold binary_round_aux.
  pose proof (shr_fexp_below mb eb mx ex lx Hmb Hcan Hmx Hex Hb) as H1.
  destruct (shr_fexp prec emax mx ex lx) as [mrs1 e1].
  cbv zeta in H1. cbn [fst snd] in H1. destruct H1 as (He1 & Hm1 & Hb1).
  pose proof (round_nearest_even_below _ mrs1 Hm1 Hb1) as H2.
  set (m2 := round_nearest_even (shr_m mrs1) (loc_of_shr_record mrs1)) in *.
  assert (Hb2 : below (mb * 2 ^ (eb - e1)) m2 (loc_inexact loc_Exact)).
  { split; [lia|discriminate]. }
  pose proof (shr_fexp_below mb eb m2 e1 loc_Exact Hmb Hcan
                (proj1 H2) (proj2 He1) Hb2) as H3.
  destruct (shr_fexp prec emax m2 e1 loc_Exact) as [mrs3 e3].
  cbv zeta in H3. cbn [fst snd] in H3. destruct H3 as (He3 & Hm3 & Hle3 & _).
  destruct (shr_m mrs3) as [|m3|m3]; [exact I| |lia].
  replace (Z.leb e3 (emax - prec)) with true
    by (symmetry; apply Z.leb_le; lia).
  split; [lia|assumption].
Qed.

Lemma val_le_scale (m1 e1 m2 e2 a b : Z) :
  0 <= a -> 0 <= b -> a - b = e1 - e2 ->
  val_le m1 e1 m2 e2 -> m1 * 2 ^ a <= m2 * 2 ^ b.
Proof.
  unfold val_le. intros Ha Hb Hab H.
  set (c := Z.min e1 e2) in *.
  set (t := a - (e1 - c)).
  assert (Ht : 0 <= t) by lia.
  replace a with ((e1 - c) + t) by lia.
  replace b with ((e2 - c) + t) by lia.
  rewrite !pow2_split by lia.
  assert (0 < 2 ^ t) by (apply Z.pow_pos_nonneg; lia).
  nia.
Qed.

Lemma val_le_digits (m1 e1 m2 e2 : Z) :
  0 < m1 -> 0 < m2 -> val_le m1 e1 m2 e2 ->
  Zdigits2 m1 + e1 <= Zdigits2 m2 + e2.
Proof.
  unfold val_le. intros H1 H2 H.
  set (c := Z.min e1 e2) in *.
  assert (0 < 2 ^ (e1 - c)) by (apply Z.pow_pos_nonneg; lia).
  pose proof (Zdigits2_le (m1 * 2 ^ (e1 - c)) (m2 * 2 ^ (e2 - c))) as Hd.
  rewrite !Zdigits2_scaled in Hd by lia.
  assert (0 <= m1 * 2 ^ (e1 - c)) by nia. lia.
Qed.

Lemma canonical_small (m : positive) (e : Z) :
  canonical_mantissa prec emax m e = true -> Zpos m < 2 ^ 53.
Proof.
  unfold canonical_mantissa. intros H. apply Z.eqb_eq in H.
  rewrite fexp_eq, digits2_log2 in H.
  apply Z.log2_lt_pow2; lia.
Qed.

Lemma canonical_normal (m : positive) (e : Z) :
  canonical_mantissa prec emax m e = true ->
  -1074 < e -> 2 ^ 52 <= Zpos m.
Proof.
  unfold canonical_mantissa. intros H He. apply Z.eqb_eq in H.
  rewrite fexp_eq, digits2_log2 in H.
  apply Z.log2_le_pow2; lia.
Qed.

Lemma canonical_emin (m : positive) (e : Z) :
  canonical_mantissa prec emax m e = true -> -1074 <= e.
Proof.
  unfold canonical_mantissa. intros H. apply Z.eqb_eq in H.
  rewrite fexp_eq in H. lia.
Qed.

Lemma SFleb_val_le (m1 : positive) (e1 : Z) (m2 : positive) (e2 : Z) :
  valid_binary (S754_finite false m1 e1) = true ->
  valid_binary (S754_finite false m2 e2) = true ->
  SFleb (S754_finite false m1 e1) (S754_finite false m2 e2) = true ->
  val_le (Zpos m1) e1 (Zpos m2) e2.
Proof.
  cbn [valid_binary]. unfold bounded. intros V1 V2.
  apply andb_true_iff in V1 as [C1 _]. apply andb_true_iff in V2 as [C2 _].
  unfold SFleb, SFcompare, val_le.
  destruct (Z.compare_spec e1 e2) as [->|Hlt|Hgt].
  - rewrite Z.min_id, Z.sub_diag, Z.pow_0_r, !Z.mul_1_r.
    change (Pos.compare_cont Eq m1 m2) with (Pos.compare m1 m2).
    destruct (Pos.compare_spec m1 m2); intros; try discriminate; lia.
  - intros _. replace (Z.min e1 e2) with e1 by lia.
    rewrite Z.sub_diag, Z.pow_0_r, Z.mul_1_r.
    pose proof (canonical_small _ _ C1).
    pose proof (canonical_emin _ _ C1).
    pose proof (canonical_normal _ _ C2 ltac:(lia)).
    assert (2 ^ 1 <= 2 ^ (e2 - e1)) by (apply Z.pow_le_mono_r; lia).
    change (2 ^ 1) with 2 in *. change (2 ^ 53) with (2 * 2 ^ 52) in *. nia.
  - discriminate.
Qed.

Lemma new_location_exact (nb k : Z) :
  loc_inexact (new_location nb k) = true -> k <> 0.
Proof.
  unfold new_location, new_location_even, new_location_odd.
  intros H ->. destruct (Z.even nb); discriminate.
Qed.

Lemma div_core_below (m1 : positive) (e1 : Z) (m2 : positive) (e2 : Z) :
  val_le (Zpos m1) e1 (Zpos m2) e2 ->
  let '(mz, ez, lz) := SFdiv_core_binary prec emax (Zpos m1) e1 (Zpos m2) e2 in
  0 <= mz /\ ez <= -52
  /\ below (2 ^ 52 * 2 ^ (-52 - ez)) mz (loc_inexact lz).
Proof.
  intros Hv. unfold SFdiv_core_binary.
  set (d1 := Zdigits2 (Zpos m1)). set (d2 := Zdigits2 (Zpos m2)).
  change (IntDef.Z.min ?a ?b) with (Z.min a b).
  set (e' := Z.min (fexp prec emax (d1 + e1 - (d2 + e2))) (e1 - e2)).
  assert (He' : e' <= -53).
  { pose proof (val_le_digits (Zpos m1) e1 (Zpos m2) e2
                  (Pos2Z.is_pos m1) (Pos2Z.is_pos m2) Hv) as Hd.
    fold d1 d2 in Hd. unfold e'. rewrite fexp_eq. lia. }
  set (s := e1 - e2 - e').
  assert (Hs : 0 <= s) by (unfold s, e'; lia).
  set (m' := match s with
             | Zpos _ => Z.shiftl (Zpos m1) s
             | Z0 => Zpos m1
             | Zneg _ => 0
             end).
  assert (Hm' : m' = Zpos m1 * 2 ^ s).
  { unfold m'. destruct s; [rewrite Z.pow_0_r; lia| |lia].
    now rewrite Z.shiftl_mul_pow2 by lia. }
  pose proof (Z_div_mod m' (Zpos m2) eq_refl) as Hdm.
  destruct (Z.div_eucl m' (Zpos m2)) as [q r]. destruct Hdm as [Heq Hr].
  assert (Hle : Zpos m1 * 2 ^ s <= Zpos m2 * 2 ^ (- e')).
  { apply (val_le_scale _ e1 _ e2); [lia|lia|unfold s; lia|exact Hv]. }
  replace (2 ^ 52 * 2 ^ (-52 - e')) with (2 ^ (- e')).
  2:{ rewrite <- pow2_split by lia. f_equal. lia. }
  assert (0 < 2 ^ s) by (apply Z.pow_pos_nonneg; lia).
  split; [|split; [lia|split]].
  - nia.
  - nia.
  - intros Hi. apply new_location_exact in Hi. nia.
Qed.

Lemma round_aux_at_most (mb eb mx ex : Z) (lx : location) :
  0 < mb ->
  fexp prec emax (Zdigits2 mb + eb) = eb ->
  eb <= emax - prec ->
  0 <= mx -> ex <= eb ->
  below (mb * 2 ^ (eb - ex)) mx (loc_inexact lx) ->
  at_most mb eb (binary_round_aux prec emax false mx ex lx).
Proof.
  intros. pose proof (round_aux_below mb eb mx ex lx) as H'.
  unfold at_most.
  destruct (binary_round_aux prec emax false mx ex lx) as [[|]|[|]| |[|] m e];
    auto.
Qed.

Lemma SFdiv_at_most_one (x y : spec_float) :
  valid_binary x = true -> valid_binary y = true ->
  SFleb (S754_zero false) x = true ->
  SFltb x (S754_infinity false) = true ->
  SFltb (S754_zero false) y = true ->
  SFleb x y = true ->
  at_most (2 ^ 52) (-52) (SFdiv prec emax x y).
Proof.
  intros Vx Vy H0 Hfin Hy Hxy.
  destruct x as [sx|sx| |sx mx ex]; try discriminate;
    destruct y as [sy|sy| |sy my ey]; try discriminate;
    try (destruct sx; discriminate); try (destruct sy; discriminate);
    try exact I.
  - destruct sx; [discriminate|]. destruct sy; [discriminate|].
    cbn [SFdiv xorb].
    pose proof (div_core_below mx ex my ey (SFleb_val_le _ _ _ _ Vx Vy Hxy)) as H.
    destruct (SFdiv_core_binary prec emax (Z.pos mx) ex (Z.pos my) ey)
      as [[mz ez] lz].
    destruct H as (Hm & He & Hb).
    apply round_aux_at_most;
      [reflexivity|reflexivity|discriminate|assumption|assumption|assumption].
Qed.

Lemma SFmul_hundred_at_most (x : spec_float) :
  at_most (2 ^ 52) (-52) x ->
  at_most 7036874417766400 (-46) (SFmul prec emax x hundred).
Proof.
  destruct x as [sx|sx| |sx mx ex]; cbn [at_most]; try contradiction.
  - intros _. exact I.
  - destruct sx; [contradiction|]. intros [He Hm].
    cbn [SFmul hundred xorb].
    apply round_aux_at_most;
      [reflexivity|reflexivity|discriminate|lia|lia|].
    split; [|discriminate].
    rewrite Pos2Z.inj_mul.
    replace (2 ^ 52 * 2 ^ (-52 - ex)) with (2 ^ (- ex)) in Hm.
    2:{ rewrite <- pow2_split by lia. f_equal. lia. }
    replace (-46 - (ex + -46)) with (- ex) by lia.
    nia.
Qed.

Lemma Math_round_at_most_hundred (p : float) :
  at_most 7036874417766400 (-46) (Prim2SF p) -> within_0_100 (Math_round p).
Proof.
  unfold Math_round, at_most.
  destruct (Prim2SF p) as [s|s| |s m e]; try contradiction.
  - intros _. destruct s; simpl; [exact I|lia].
  - destruct s; [contradiction|]. intros [He Hm].
    replace (Z.leb 0 e) with false by (symmetry; apply Z.leb_gt; lia).
    cbv zeta. cbn [within_0_100].
    set (d := 2 ^ (- e)).
    assert (Hd : 0 < d) by (apply Z.pow_pos_nonneg; lia).
    assert (Hm' : Zpos m <= 100 * d).
    { replace (100 * d) with (7036874417766400 * 2 ^ (-46 - e)); [exact Hm|].
      unfold d. replace (- e) with (46 + (-46 - e)) by lia.
      rewrite pow2_split by lia. change (2 ^ 46) with 70368744177664. ring. }
    pose proof (Z.div_mod (Zpos m) d ltac:(lia)) as Hdm.
    pose proof (Z.mod_pos_bound (Zpos m) d Hd) as Hr.
    destruct (Z.leb_spec d (2 * (Zpos m mod d))); nia.
Qed.

Theorem percent_in_range (l t : float) :
  PrimFloat.leb 0 l = true ->
  PrimFloat.ltb l infinity = true ->
  PrimFloat.ltb 0 t = true ->
  PrimFloat.leb l t = true ->
  within_0_100 (Math_round (l / t * 100)%float).
Proof.
  rewrite !FloatAxioms.leb_spec, !FloatAxioms.ltb_spec.
  intros H0 Hfin Ht Hlt.
  apply Math_round_at_most_hundred.
  rewrite FloatAxioms.mul_spec, FloatAxioms.div_spec.
  apply SFmul_hundred_at_most.
  apply SFdiv_at_most_one; auto using FloatAxioms.Prim2SF_valid.
Qed.

(** A Number that is at least a positive Number is positive. *)
Lemma SFltb_zero_le (x y : spec_float) :
  SFltb (S754_zero false) x = true ->
  SFleb x y = true ->
  SFltb (S754_zero false) y = true.
Proof.
  unfold SFltb, SFleb.
  destruct x as [sx|[|]| |[|] mx ex], y as [sy|[|]| |[|] my ey];
    cbn [SFcompare]; intros Hx Hxy;
    solve [discriminate Hx | discriminate Hxy | reflexivity].
Qed.

Lemma Number_positive_le (l t : float) :
  PrimFloat.ltb 0 l = true ->
  PrimFloat.leb l t = true ->
  PrimFloat.ltb 0 t = true.
Proof.
  rewrite !FloatAxioms.ltb_spec, FloatAxioms.leb_spec. apply SFltb_zero_le.
Qed.

End Binary64Facts.

Import Upload UploadFacts Binary64Facts.

(** C8: [postFile] opens one request, a POST to the detected base path
    followed by [/upload/], sets its timeout to 3,600,000 ms and sends
    once; the body is the description field followed by the selected
    files, none, one or several.  On a page served at a base path followed
    by [/upload/] the detected base path is that base path, and at
    [/upload/] itself it is empty. *)
Theorem postFile_submits_once (pathname : string) (form : Form) :
  let body := ("Desc"%string, Text (Desc form))
                :: map (fun f => ("FileToUpload"%string, Blob f))
                       (FilesToUpload form) in
  postFile (serve_prefix pathname) form
  = [ upload_addEventListener "progress"
        (progress_listener (sum_sizes (FilesToUpload form)));
      open "post" (serve_prefix pathname ++ "/upload/");
      set_timeout 3600000;
      send body ]
  /\ submitted (postFile (serve_prefix pathname) form) = [body]
  /\ (forall base : string,
        (forall c, In c (list_ascii_of_string base) ->
              line_terminator c = false) ->
        pathname = (String "/" base ++ "/upload/")%string ->
        serve_prefix pathname = String "/" base)
  /\ (pathname = "/upload/"%string -> serve_prefix pathname = ""%string).
Proof.
  cbv zeta. unfold postFile. rewrite append_files_spec.
  split; [reflexivity|split; [reflexivity|split]].
  - intros base Hbase ->. now apply serve_prefix_base.
  - intros ->. reflexivity.
Qed.

Lemma postFile_submits_once_witness :
  In (open "post" "/nspic/upload/")
     (postFile (serve_prefix "/nspic/upload/")
               {| Desc := "holiday"; FilesToUpload := [Sample.photo] |}).
Proof.
  destruct (postFile_submits_once "/nspic/upload/"
              {| Desc := "holiday"; FilesToUpload := [Sample.photo] |})
    as (Hcalls & _ & Hbase & _).
  rewrite Hcalls. right. left.
  rewrite (Hbase "nspic"%string); [reflexivity| |reflexivity].
  intros c Hc. cbn in Hc.
  repeat (destruct Hc as [<-|Hc]; [reflexivity|]). destruct Hc.
Defined.

(** C9, as written: the percentage shown is loaded / total * 100,
    rounded.  It fails: the listener divides by the summed size of the
    selected files, not by the total of the event (with one file of 1000
    bytes, 600 of 1200 bytes sent show 60, not 50), and shows 100 whenever
    loaded equals total, whatever the quotient by the summed size is
    (1200 of 1200 bytes sent show 100, while 1200 / 1000 * 100 is 120). *)
Lemma percentage_is_not_loaded_over_total :
  let listener := progress_listener (sum_sizes [Sample.photo]) in
  on_progress listener {| loaded := 600; total := 1200 |} = show (Int 60)
  /\ Math_round (600 / 1200 * 100)%float = Int 50
  /\ on_progress listener {| loaded := 1200; total := 1200 |} = show (Int 100)
  /\ Math_round (1200 / sum_sizes [Sample.photo] * 100)%float = Int 120.
Proof. cbv zeta. repeat split; vm_compute; reflexivity. Qed.

(** C9, amended: with [total_size] the summed size of the selected
    files, a progress event whose loaded equals its total ends with 100
    written to the width and the label; any other event writes nothing
    when loaded exceeds [total_size] and otherwise writes loaded /
    [total_size] * 100 rounded to the nearest integer.  Every value
    written lies between 0 and 100 when loaded is finite and not negative.
    Both statements take loaded or [total_size] to be positive: the event
    with loaded 0 while no byte is selected is left aside. *)
Theorem progress_percentage (files : list File) (e : ProgressEvent) :
  let total_size := sum_sizes files in
  let writes := on_progress (progress_listener total_size) e in
  (PrimFloat.eqb (loaded e) (total e) = true ->
   exists earlier, writes = earlier ++ show (Int 100))
  /\ (PrimFloat.eqb (loaded e) (total e) = false ->
      PrimFloat.leb (loaded e) total_size = false ->
      writes = [])
  /\ (PrimFloat.eqb (loaded e) (total e) = false ->
      PrimFloat.leb (loaded e) total_size = true ->
      PrimFloat.ltb 0 total_size = true \/ PrimFloat.ltb 0 (loaded e) = true ->
      writes = show (Math_round (loaded e / total_size * 100)%float))
  /\ (PrimFloat.leb 0 (loaded e) = true ->
      PrimFloat.ltb (loaded e) infinity = true ->
      PrimFloat.ltb 0 total_size = true \/ PrimFloat.ltb 0 (loaded e) = true ->
      forall a, In a writes -> within_0_100 (assigned a)).
Proof.
  intros total_size writes. unfold writes, on_progress.
  split; [|split; [|split]].
  - intros ->. eexists. reflexivity.
  - intros -> ->. reflexivity.
  - intros -> -> _. now rewrite app_nil_r.
  - intros H0 Hfin Hpos a Ha.
    apply in_app_or in Ha as [Ha|Ha].
    + destruct (PrimFloat.leb (loaded e) total_size) eqn:Hle; [|destruct Ha].
      assert (Hts : PrimFloat.ltb 0 total_size = true).
      { destruct Hpos as [Hpos|Hpos]; [exact Hpos|].
        exact (Number_positive_le _ _ Hpos Hle). }
      assert (Hr : within_0_100 (Math_round (loaded e / total_size * 100)%float))
        by (now apply percent_in_range).
      destruct Ha as [<-|[<-|[]]]; exact Hr.
    + destruct (PrimFloat.eqb (loaded e) (total e)); [|destruct Ha].
      destruct Ha as [<-|[<-|[]]]; cbn; lia.
Qed.

Lemma progress_percentage_witness :
  within_0_100
    (assigned (ProgressBar_innerHTML (Math_round (725 / 1000 * 100)%float))).
Proof.
  destruct (progress_percentage
              [Sample.photo; {| name := "empty.txt"; size := 0 |}]
              {| loaded := 725; total := 5400 |}) as (_ & _ & Heq & Hin).
  assert (H : In (ProgressBar_innerHTML
                    (Math_round (725 / 1000 * 100)%float))
                 (on_progress
                    (progress_listener
                       (sum_sizes
                          [Sample.photo; {| name := "empty.txt"; size := 0 |}]))
                    {| loaded := 725; total := 5400 |})).
  { rewrite Heq; [|reflexivity|reflexivity|left; reflexivity].
    right. left. reflexivity. }
  exact (Hin eq_refl eq_refl (or_introl eq_refl) _ H).
Defined.

(* ================================================================== *)
(** * Further properties of static/gallery.js *)
(* ================================================================== *)

Module GalleryMore.
Import DOM Gallery Notions GalleryFacts.

(** ** Class lists *)

Lemma remove_remove (c : DOMTokenList) (t : string) :
  remove (remove c t) t = remove c t.
Proof.
  unfold remove. induction c as [|x c IH]; simpl; [reflexivity|].
  destruct (String.eqb t x) eqn:E; simpl; [exact IH|].
  rewrite E. simpl. now rewrite IH.
Qed.

Lemma remove_toggle (c : DOMTokenList) (t : string) (force : bool) :
  remove (toggle c t force) t = remove c t.
Proof.
  unfold toggle.
  destruct (contains c t), force; try reflexivity.
  - apply remove_remove.
  - unfold remove. rewrite filter_app. simpl. rewrite String.eqb_refl.
    simpl. apply app_nil_r.
Qed.

Lemma contains_In (c : DOMTokenList) (t : string) :
  contains c t = true <-> In t c.
Proof.
  unfold contains. rewrite existsb_exists. split.
  - intros (x & Hx & E). apply String.eqb_eq in E. now subst.
  - intros H. exists t. split; [assumption|apply String.eqb_refl].
Qed.

Lemma toggle_NoDup (c : DOMTokenList) (t : string) (force : bool) :
  NoDup c -> NoDup (toggle c t force).
Proof.
  intros H. unfold toggle.
  destruct (contains c t) eqn:E, force; try assumption.
  - now apply NoDup_filter.
  - apply NoDup_app; [assumption|repeat constructor; intros []|].
    intros x Hx [<-|[]]. apply contains_In in Hx. congruence.
Qed.

Lemma toggle_same_state (c : DOMTokenList) (t : string) :
  toggle c t (contains c t) = c.
Proof. unfold toggle. now destruct (contains c t). Qed.

(** ** One pass and one batch, element by element *)

Lemma pass_remove (index : Z) (l : list Element) :
  forall (i : Z) (d : Document) (e : Element),
    remove (forEach_from (toggle_each index) l i d e) "Active"
    = remove (d e) "Active".
Proof.
  induction l as [|x l IH]; intros i d e; simpl; [reflexivity|].
  rewrite IH. unfold toggle_each, classList_toggle.
  destruct (Nat.eqb e x) eqn:E; [|reflexivity].
  apply Nat.eqb_eq in E. subst. apply remove_toggle.
Qed.

Lemma pass_NoDup (index : Z) (l : list Element) :
  forall (i : Z) (d : Document),
    (forall e, NoDup (d e)) ->
    forall e, NoDup (forEach_from (toggle_each index) l i d e).
Proof.
  induction l as [|x l IH]; intros i d H e; simpl; [apply H|].
  apply IH. intros e'. unfold toggle_each, classList_toggle.
  destruct (Nat.eqb e' x); [apply toggle_NoDup|]; apply H.
Qed.

(** A property of documents that every activation keeps is kept by every
    sequence of batches. *)
Lemma deliver_keeps (g : Gallery) (P : Document -> Prop) :
  (forall index d, P d -> P (activateIndicator g index d)) ->
  forall batches d, P d -> P (deliver g batches d).
Proof.
  intros Hact batches d. rewrite deliver_concat.
  generalize (List.concat batches). clear batches. intros entries.
  revert d. induction entries as [|x l IH]; intros d Hd; [exact Hd|].
  rewrite observed_cons. apply IH. unfold on_entry.
  destruct (qualifies x); [now apply Hact|exact Hd].
Qed.

(** The last entry that passed the guard decides the state. *)
Lemma observed_last (g : Gallery)
      (entries : list IntersectionObserverEntry) (d : Document) :
  match last_qualifying entries with
  | None => onIntersectionObserved g entries d = d
  | Some entry =>
      exists d0, onIntersectionObserved g entries d
            = activateIndicator g (indexOf (Images g) (target entry)) d0
  end.
Proof.
  unfold last_qualifying.
  induction entries as [|x l IH] using rev_ind; [reflexivity|].
  rewrite rev_app_distr. cbn [rev app find].
  rewrite observed_app.
  change (onIntersectionObserved g [x] ?y) with (on_entry g x 0%Z y).
  unfold on_entry. destruct (qualifies x).
  - eexists. reflexivity.
  - exact IH.
Qed.

Lemma last_qualifying_spec (entries : list IntersectionObserverEntry)
      (entry : IntersectionObserverEntry) :
  last_qualifying entries = Some entry ->
  In entry entries /\ qualifies entry = true.
Proof.
  unfold last_qualifying. intros H. apply find_some in H as [Hin Hq].
  split; [now apply in_rev|assumption].
Qed.

End GalleryMore.

Import Notions GalleryMore.

(** X1: whatever batches a gallery's callback handles, it writes nothing
    but the token Active of its own Indicators: every other element keeps
    its class list, and every class list keeps its other tokens, in their
    order. *)
Theorem callback_writes_only_Active
        (g : Gallery) (batches : list (list IntersectionObserverEntry))
        (d : Document) :
  (forall e, ~ In e (Indicators g) ->
        classList (deliver g batches d) e = classList d e)
  /\ (forall e, remove (classList (deliver g batches d) e) "Active"
           = remove (classList d e) "Active").
Proof.
  apply (deliver_keeps g
           (fun d' => (forall e, ~ In e (Indicators g) ->
                            classList d' e = classList d e)
                      /\ (forall e, remove (classList d' e) "Active"
                               = remove (classList d e) "Active"))).
  - intros index d' [Hout Hrem]. unfold classList in *. split.
    + intros e He. rewrite activate_frame by assumption. now apply Hout.
    + intros e. unfold activateIndicator, forEach.
      rewrite pass_remove. apply Hrem.
  - split; reflexivity.
Qed.

Lemma callback_writes_only_Active_witness :
  classList (deliver Sample.galleryA [[Sample.notify 6 0.9%float]]
                     Sample.first_active) 22
  = classList Sample.first_active 22.
Proof.
  apply (callback_writes_only_Active Sample.galleryA
           [[Sample.notify 6 0.9%float]] Sample.first_active).
  absent.
Defined.

(** X2: the state after any batches is decided by the last notification
    that passed the guard: when none did, nothing changed; otherwise the
    Indicator at index j is active exactly when j is the index of that
    notification's Item, whatever came before. *)
Theorem last_qualifying_notification_decides
        (g : Gallery) (batches : list (list IntersectionObserverEntry))
        (d : Document) :
  NoDup (Indicators g) ->
  match last_qualifying (List.concat batches) with
  | None => deliver g batches d = d
  | Some entry =>
      forall j indicator,
        nth_error (Indicators g) j = Some indicator ->
        isActive (deliver g batches d) indicator
        = Z.eqb (Z.of_nat j) (indexOf (Images g) (target entry))
  end.
Proof.
  intros Hnd. rewrite deliver_concat.
  pose proof (observed_last g (List.concat batches) d) as H.
  destruct (last_qualifying (List.concat batches)) as [entry|]; [|exact H].
  destruct H as [d0 ->]. intros j indicator Hj.
  now apply isActive_activate.
Qed.

Lemma last_qualifying_notification_decides_witness :
  isActive (deliver Sample.galleryA
              [[Sample.notify 8 0.7%float; Sample.notify 5 0.2%float];
               [Sample.notify 6 0.61%float; Sample.notify 9 0.59%float]]
              Sample.first_active) 13 = true.
Proof.
  pose proof (last_qualifying_notification_decides Sample.galleryA
                [[Sample.notify 8 0.7%float; Sample.notify 5 0.2%float];
                 [Sample.notify 6 0.61%float; Sample.notify 9 0.59%float]]
                Sample.first_active) as H.
  cbv beta in H. apply (fun nd => H nd 2%nat 13).
  - repeat constructor; absent.
  - reflexivity.
Defined.

(** X3: once a notification passed the guard, exactly one Indicator is
    active after every further batch, provided the notifications are for
    Items of the gallery and each Item has its Indicator. *)
Theorem exactly_one_active_once_qualified
        (g : Gallery) (batches : list (list IntersectionObserverEntry))
        (d : Document) :
  NoDup (Indicators g) ->
  List.length (Indicators g) = List.length (Images g) ->
  (forall entry, In entry (List.concat batches) ->
            In (target entry) (Images g)) ->
  last_qualifying (List.concat batches) <> None ->
  countActive g (deliver g batches d) = 1%nat.
Proof.
  intros Hnd Hlen Hin Hsome.
  pose proof (last_qualifying_notification_decides g batches d Hnd) as H.
  destruct (last_qualifying (List.concat batches)) as [entry|] eqn:El;
    [|congruence].
  apply last_qualifying_spec in El as [Hentry _].
  destruct (indexOf_first _ _ (Hin entry Hentry)) as (j & Hj & Hidx).
  unfold countActive.
  rewrite (count_single _ (indexOf (Images g) (target entry))
                        (Indicators g) 0%Z) by (intros; now apply H).
  rewrite Hidx.
  assert (Hlt : (j < List.length (Indicators g))%nat).
  { rewrite Hlen. apply nth_error_Some. congruence. }
  destruct (Z.leb_spec 0 (Z.of_nat j)),
           (Z.ltb_spec (Z.of_nat j)
                       (0 + Z.of_nat (List.length (Indicators g))));
    cbn [andb]; try reflexivity; lia.
Qed.

Lemma exactly_one_active_once_qualified_witness :
  countActive Sample.galleryA
    (deliver Sample.galleryA
       [[Sample.notify 8 0.7%float]; [Sample.notify 5 0.2%float]]
       Sample.served) = 1%nat.
Proof.
  apply exactly_one_active_once_qualified.
  - repeat constructor; absent.
  - reflexivity.
  - intros entry Hentry. cbn in Hentry.
    repeat (destruct Hentry as [<-|Hentry]; [present|]). destruct Hentry.
  - discriminate.
Defined.

(** X4: activating the index that is already the only active one writes
    nothing: every class list stays as it is, token order included. *)
Theorem activating_the_active_index_changes_nothing
        (g : Gallery) (d : Document) (index : Z) :
  NoDup (Indicators g) ->
  (forall j indicator,
      nth_error (Indicators g) j = Some indicator ->
      isActive d indicator = Z.eqb (Z.of_nat j) index) ->
  forall e, classList (activateIndicator g index d) e = classList d e.
Proof.
  intros Hnd Hstate e. unfold classList.
  destruct (in_dec Nat.eq_dec e (Indicators g)) as [Hin|Hnin].
  - apply In_nth_error in Hin as [j Hj].
    rewrite (activate_at g index d j e Hnd Hj).
    rewrite <- (Hstate j e Hj). apply toggle_same_state.
  - now apply activate_frame.
Qed.

Lemma activating_the_active_index_changes_nothing_witness :
  classList (activateIndicator Sample.galleryA 0 Sample.first_active) 11
  = classList Sample.first_active 11.
Proof.
  apply activating_the_active_index_changes_nothing.
  - repeat constructor; absent.
  - intros j indicator Hj.
    do 6 (destruct j as [|j]; [injection Hj as <-; reflexivity|]).
    destruct j; discriminate Hj.
Defined.

(** X5: [indexOf] against indexing: the result is -1 exactly for an
    element that is not in the array; for one that is, it is the first
    index that holds it; on an array without repetition it gives back the
    index an element was read from. *)
Theorem indexOf_inverts_indexing (l : list Element) (x : Element) :
  (indexOf l x = (-1)%Z <-> ~ In x l)
  /\ (In x l ->
      exists j : nat,
        indexOf l x = Z.of_nat j
        /\ nth_error l j = Some x
        /\ forall k, (k < j)%nat -> nth_error l k <> Some x)
  /\ (NoDup l ->
      forall j, nth_error l j = Some x -> indexOf l x = Z.of_nat j).
Proof.
  assert (Hfirst : forall (l : list Element) i,
             In x l ->
             exists j : nat,
               indexOf_from l x i = (i + Z.of_nat j)%Z
               /\ nth_error l j = Some x
               /\ forall k, (k < j)%nat -> nth_error l k <> Some x).
  { clear l. induction l as [|y l IH]; intros i Hin; [destruct Hin|].
    cbn [indexOf_from]. destruct (Nat.eqb y x) eqn:E.
    - apply Nat.eqb_eq in E. subst. exists 0%nat.
      split; [lia|split; [reflexivity|intros k Hk; lia]].
    - apply Nat.eqb_neq in E.
      destruct Hin as [Hin|Hin]; [contradiction|].
      destruct (IH (i + 1)%Z Hin) as (j & Hi & Hj & Hmin).
      exists (S j). split; [lia|split; [exact Hj|]].
      intros [|k] Hk; cbn; [congruence|apply Hmin; lia]. }
  split; [|split].
  - split.
    + intros H Hin. destruct (Hfirst l 0%Z Hin) as (j & Hj & _).
      unfold indexOf in H. lia.
    + apply indexOf_absent.
  - intros Hin. destruct (Hfirst l 0%Z Hin) as (j & Hj & Hrest).
    exists j. split; [exact Hj|exact Hrest].
  - intros Hnd j Hj. now apply indexOf_nth.
Qed.

Lemma indexOf_inverts_indexing_witness :
  indexOf (Images Sample.galleryA) 7 = 3%Z.
Proof.
  destruct (indexOf_inverts_indexing (Images Sample.galleryA) 7)
    as (_ & _ & H).
  apply (H ltac:(repeat constructor; absent) 3%nat). reflexivity.
Defined.

(** X6: class lists stay sets: when no class list of the page repeats a
    token, none does after any batches the callback handles. *)
Theorem class_lists_stay_sets
        (g : Gallery) (batches : list (list IntersectionObserverEntry))
        (d : Document) :
  (forall e, NoDup (classList d e)) ->
  forall e, NoDup (classList (deliver g batches d) e).
Proof.
  intros H.
  apply (deliver_keeps g (fun d' => forall e, NoDup (classList d' e)));
    [|exact H].
  intros index d' Hd' e. unfold classList, activateIndicator, forEach.
  now apply pass_NoDup.
Qed.

Lemma class_lists_stay_sets_witness :
  NoDup (classList (deliver Sample.galleryA [[Sample.notify 8 0.7%float]]
                            Sample.first_active) 14).
Proof.
  apply class_lists_stay_sets.
  intros e. unfold classList, Sample.first_active, Sample.served.
  repeat match goal with
         | |- context [if ?b then _ else _] => destruct b
         end;
    repeat constructor; cbn; intuition discriminate.
Defined.

(* ================================================================== *)
(** * Further properties of the page scan *)
(* ================================================================== *)

Module PageMore.
Import DOM Gallery Page Notions GalleryFacts PageFacts.




(** In a tree whose root alone has the least depth, every other element
    has a parent. *)
Lemma parentElement_exists (t : Tree) (e : Element) :
  (forall x, (1 <= x < List.length t)%nat ->
        (depth_of t 0 < depth_of t x)%nat) ->
  (1 <= e < List.length t)%nat ->
  parentElement t e <> None.
Proof.
  intros Hroot He. unfold parentElement, info.
  destruct (nth_error t e) eqn:E.
  - intros Hnone.
    pose proof (find_none _ _ Hnone 0%nat) as H0. cbv beta in H0.
    assert (Hin : In 0%nat (rev (seq 0 e))).
    { apply in_rev. rewrite rev_involutive. apply in_seq. lia. }
    specialize (H0 Hin). apply Nat.ltb_ge in H0.
    specialize (Hroot e He). lia.
  - apply nth_error_None in E. lia.
Qed.

Lemma setup_all_total (t : Tree) (d : Document) (lists : list Element) :
  (forall e, In e lists -> setup t d e <> None) ->
  map Some (setup_all t d lists) = map (setup t d) lists.
Proof.
  induction lists as [|e lists IH]; intros H; [reflexivity|].
  cbn [setup_all map].
  destruct (setup t d e) eqn:E; [|exfalso; apply (H e); [now left|exact E]].
  cbn [map]. f_equal. apply IH. intros x Hx. apply H. now right.
Qed.

Lemma is_a_in_tree (t : Tree) (d : Document) (tag class : string)
      (e : Element) :
  is_a t d tag class e = true -> (e < List.length t)%nat.
Proof.
  unfold is_a, info. destruct (nth_error t e) eqn:E; [|discriminate].
  intros _. apply nth_error_Some. congruence.
Qed.

End PageMore.

Import Page PageMore.



(** X8: a notification for an element the observer of a gallery watches
    always resolves to an index of the Images array, the one that holds
    the element: the callback never gets -1 for its own observer's
    notifications. *)
Theorem observed_targets_resolve
        (t : Tree) (d : Document) (indi_list : Element)
        (g : Gallery) (o : IntersectionObserver)
        (entry : IntersectionObserverEntry) :
  setup t d indi_list = Some (g, o) ->
  In (target entry) (observed o) ->
  exists j : nat,
    indexOf (Images g) (target entry) = Z.of_nat j
    /\ (j < List.length (Images g))%nat
    /\ nth_error (Images g) j = Some (target entry).
Proof.
  intros Hs Hin.
  destruct (setup_distinct _ _ _ _ _ Hs) as (_ & Hnd & Hobs).
  rewrite Hobs in Hin.
  destruct (indexOf_first _ _ Hin) as (j & Hj & Hidx).
  exists j. split; [exact Hidx|split; [|exact Hj]].
  apply nth_error_Some. congruence.
Qed.

Lemma observed_targets_resolve_witness :
  exists j : nat,
    indexOf (Images Sample.galleryA) 6 = Z.of_nat j
    /\ (j < List.length (Images Sample.galleryA))%nat
    /\ nth_error (Images Sample.galleryA) j = Some 6.
Proof.
  apply (observed_targets_resolve Sample.page Sample.served 10
           Sample.galleryA
           {| root := Some 3; observer_threshold := 0.6;
              observed := Images Sample.galleryA |}
           (Sample.notify 6 0.9%float)).
  - reflexivity.
  - present.
Defined.

(** X9: the scan as a whole.  When the root element is itself an
    indicator list, the first call of the callback throws for want of a
    parent and nothing is set up.  Otherwise, in a tree whose root alone
    has the least depth, every indicator list of the page is set up, in
    document order. *)
Theorem scan_sets_up_every_list (t : Tree) (d : Document) :
  (is_a t d "ul" "ScrollIndicators" 0 = true -> script t d = [])
  /\ (is_a t d "ul" "ScrollIndicators" 0 = false ->
      (forall x, (1 <= x < List.length t)%nat ->
            (depth_of t 0 < depth_of t x)%nat) ->
      map Some (script t d)
      = map (setup t d) (document_querySelectorAll t d "ul" "ScrollIndicators")
      /\ List.length (script t d)
         = List.length (document_querySelectorAll t d "ul" "ScrollIndicators")).
Proof.
  unfold script. split.
  - intros Hroot. pose proof (is_a_in_tree _ _ _ _ _ Hroot) as Hlen.
    unfold document_querySelectorAll.
    destruct (List.length t) as [|n]; [lia|].
    cbn [seq filter]. rewrite Hroot. cbn [setup_all].
    assert (Hnone : setup t d 0 = None).
    { unfold setup, parentElement. now destruct (info t 0). }
    now rewrite Hnone.
  - intros Hroot Hdepth.
    assert (H : map Some (setup_all t d
                  (document_querySelectorAll t d "ul" "ScrollIndicators"))
                = map (setup t d)
                      (document_querySelectorAll t d "ul" "ScrollIndicators")).
    { apply setup_all_total. intros e He.
      unfold document_querySelectorAll in He.
      apply filter_In in He as [_ Hm].
      pose proof (is_a_in_tree _ _ _ _ _ Hm) as Hlen.
      assert (He : (1 <= e)%nat).
      { destruct e; [congruence|lia]. }
      pose proof (parentElement_exists t e Hdepth (conj He Hlen)) as Hp.
      unfold setup. destruct (parentElement t e); [discriminate|congruence]. }
    split; [exact H|].
    apply (f_equal (@List.length _)) in H. now rewrite !length_map in H.
Qed.

Lemma scan_sets_up_every_list_witness :
  List.length (script Sample.page Sample.served) = 2%nat.
Proof.
  destruct (scan_sets_up_every_list Sample.page Sample.served) as (_ & H).
  destruct H as (_ & H).
  - reflexivity.
  - intros x Hx. cbn in Hx.
    do 24 (destruct x as [|x]; [cbn; lia|]). lia.
  - rewrite H. reflexivity.
Defined.

(* ================================================================== *)
(** * Further properties of the upload script *)
(* ================================================================== *)

Module UploadMore.
Import Upload Notions UploadFacts.
Local Open Scope string_scope.

(** ** The pattern *)

Lemma fold_case_length (s : string) :
  String.length (fold_case s) = String.length s.
Proof. induction s as [|c s IH]; cbn; congruence. Qed.

Lemma upload_at_end_cases (s : string) :
  upload_at_end s = true ->
  (fold_case s = "/UPLOAD/" /\ String.length s = 8%nat)
  \/ (fold_case s = "/UPLOAD" /\ String.length s = 7%nat).
Proof.
  unfold upload_at_end. intros H. apply orb_true_iff in H as [H|H];
    apply String.eqb_eq in H; [left|right];
    (split; [exact H|]); rewrite <- fold_case_length, H; reflexivity.
Qed.

Lemma append_length (a b : string) :
  String.length (a ++ b) = (String.length a + String.length b)%nat.
Proof. induction a as [|c a IH]; cbn; congruence. Qed.

(** What the greedy run returns is followed by a match of the rest of the
    pattern, and holds no line terminator. *)
Lemma dot_star_sound (s : string) :
  forall w, dot_star s = Some w ->
       exists tail, s = w ++ tail /\ upload_at_end tail = true
               /\ single_line w.
Proof.
  assert (Hempty : single_line "") by (intros c []).
  induction s as [|c s IH]; intros w; cbn [dot_star].
  - discriminate.
  - destruct (line_terminator c) eqn:Ec.
    + destruct (upload_at_end (String c s)) eqn:E; [|discriminate].
      intros H. injection H as <-. exists (String c s). auto.
    + destruct (dot_star s) as [w'|].
      * intros H. injection H as <-.
        destruct (IH w' eq_refl) as (tail & -> & Ht & Hw).
        exists tail. split; [reflexivity|split; [exact Ht|]].
        intros c' [<-|Hc']; [exact Ec|now apply Hw].
      * destruct (upload_at_end (String c s)) eqn:E; [|discriminate].
        intros H. injection H as <-. exists (String c s). auto.
Qed.

(** No match of the rest of the pattern starts inside another one. *)
Lemma upload_at_end_not_inside (c : ascii) (w tail : string) :
  upload_at_end (String c (w ++ tail)) = true ->
  upload_at_end tail = true -> False.
Proof.
  intros H1 H2.
  apply upload_at_end_cases in H1. apply upload_at_end_cases in H2.
  cbn [String.length fold_case] in H1. rewrite append_length in H1.
  destruct H1 as [[F1 L1]|[F1 L1]], H2 as [[F2 L2]|[F2 L2]]; try lia.
  destruct w as [|c' w]; [|cbn in L1; lia].
  cbn [String.append] in F1. rewrite F2 in F1. discriminate F1.
Qed.

Lemma dot_star_at_end (tail : string) :
  upload_at_end tail = true -> dot_star tail = Some "".
Proof.
  intros H. destruct tail as [|c s]; [discriminate H|].
  cbn [dot_star].
  assert (Hin : dot_star s = None).
  { destruct (dot_star s) as [w|] eqn:E; [|reflexivity].
    destruct (dot_star_sound s w E) as (tail & -> & Ht & _).
    destruct (upload_at_end_not_inside c w tail H Ht). }
  rewrite Hin, H. now destruct (line_terminator c).
Qed.

Lemma dot_star_complete (rest tail : string) :
  single_line rest -> upload_at_end tail = true ->
  dot_star (rest ++ tail) = Some rest.
Proof.
  intros Hrest Ht. induction rest as [|c rest IH].
  - now apply dot_star_at_end.
  - cbn [String.append dot_star].
    rewrite (Hrest c) by (now left).
    rewrite IH; [reflexivity|].
    intros c' Hc'. apply Hrest. now right.
Qed.

Lemma serve_prefix_at_end (tail : string) :
  upload_at_end tail = true -> serve_prefix tail = "".
Proof.
  intros H. unfold serve_prefix, match_upload. rewrite H.
  destruct tail as [|c s]; [reflexivity|].
  destruct (Ascii.eqb_spec c "/") as [->|Hc].
  - destruct (dot_star s) as [w|] eqn:E; [|reflexivity].
    destruct (dot_star_sound s w E) as (tail & -> & Ht & _).
    destruct (upload_at_end_not_inside "/" w tail H Ht).
  - destruct c as [[] [] [] [] [] [] [] []]; try reflexivity.
    now contradiction Hc.
Qed.

Lemma serve_prefix_complete (rest tail : string) :
  single_line rest -> upload_at_end tail = true ->
  serve_prefix (String "/" rest ++ tail) = String "/" rest.
Proof.
  intros Hrest Ht. unfold serve_prefix, match_upload. cbn [String.append].
  now rewrite dot_star_complete.
Qed.

Lemma serve_prefix_sound (pathname : string) :
  serve_prefix pathname = ""
  \/ exists rest tail,
      serve_prefix pathname = String "/" rest
      /\ single_line rest
      /\ pathname = serve_prefix pathname ++ tail
      /\ upload_at_end tail = true.
Proof.
  unfold serve_prefix, match_upload.
  destruct pathname as [|c s]; [left; reflexivity|].
  destruct (Ascii.eqb_spec c "/") as [->|Hc].
  - destruct (dot_star s) as [w|] eqn:E.
    + right. destruct (dot_star_sound s w E) as (tail & -> & Ht & Hw).
      exists w, tail. auto.
    + left. now destruct (upload_at_end _).
  - left. destruct c as [[] [] [] [] [] [] [] []];
      now destruct (upload_at_end _).
Qed.

End UploadMore.

Module Binary64More.
Import Upload Binary64 Binary64Facts.
Local Open Scope Z_scope.

(** ** Shapes of decoded Numbers *)

Lemma SFeqb_zero (x : spec_float) :
  SFeqb x (S754_zero false) = true -> exists s, x = S754_zero s.
Proof.
  unfold SFeqb.
  destruct x as [s|[|]| |[|] m e]; cbn [SFcompare]; try discriminate.
  intros _. now exists s.
Qed.

Lemma SFltb_zero_positive (y : spec_float) :
  SFltb (S754_zero false) y = true ->
  y = S754_infinity false \/ exists m e, y = S754_finite false m e.
Proof.
  unfold SFltb.
  destruct y as [s|[|]| |[|] m e]; cbn [SFcompare]; try discriminate.
  - now left.
  - right. now exists m, e.
Qed.

Lemma SFeqb_finite (m : positive) (e : Z) (y : spec_float) :
  SFeqb (S754_finite false m e) y = true -> y = S754_finite false m e.
Proof.
  unfold SFeqb.
  destruct y as [s|[|]| |[|] m' e']; cbn [SFcompare]; try discriminate.
  destruct (Z.compare_spec e e') as [->| |]; try discriminate.
  change (Pos.compare_cont Eq m m') with (Pos.compare m m').
  destruct (Pos.compare_spec m m') as [->| |]; try discriminate.
  reflexivity.
Qed.

Lemma SFleb_refl_finite (m : positive) (e : Z) :
  SFleb (S754_finite false m e) (S754_finite false m e) = true.
Proof.
  unfold SFleb. cbn [SFcompare]. rewrite Z.compare_refl.
  change (Pos.compare_cont Eq m m) with (Pos.compare m m).
  now rewrite Pos.compare_refl.
Qed.

(** ** A Number divided by itself *)

Lemma div_eucl_exact (b q : Z) : 0 < b -> Z.div_eucl (b * q) b = (q, 0).
Proof.
  intros Hb. pose proof (Z_div_mod (b * q) b ltac:(lia)) as H.
  destruct (Z.div_eucl (b * q) b) as [q' r]. destruct H as [Heq Hr].
  assert (q' = q) by nia. subst. f_equal. lia.
Qed.

Lemma SFdiv_core_self (m : positive) (e : Z) :
  SFdiv_core_binary prec emax (Zpos m) e (Zpos m) e
  = (2 ^ 53, -53, loc_Exact).
Proof.
  unfold SFdiv_core_binary. cbv zeta.
  rewrite !Z.sub_diag.
  change (IntDef.Z.min (fexp prec emax 0) 0) with (-53).
  change (0 - -53) with 53.
  cbv iota beta.
  rewrite Z.shiftl_mul_pow2 by lia.
  rewrite div_eucl_exact by lia.
  unfold new_location, new_location_even, new_location_odd.
  now destruct (Z.even (Zpos m)).
Qed.

Lemma SFdiv_self (m : positive) (e : Z) :
  SFdiv prec emax (S754_finite false m e) (S754_finite false m e)
  = S754_finite false 4503599627370496 (-52).
Proof.
  cbn [SFdiv xorb]. rewrite SFdiv_core_self. vm_compute. reflexivity.
Qed.

End Binary64More.

Import UploadMore Binary64More.

(** X10: the detected base path is a part of the pathname: it is empty,
    or it begins with a slash, holds no line terminator and is followed in
    the pathname by [/upload] or [/upload/] in whatever letter case, and
    by nothing else.  A pathname no end of which reads so gives the empty
    base path. *)
Theorem base_path_precedes_upload (pathname : string) :
  (serve_prefix pathname = ""%string
   \/ exists rest tail,
       serve_prefix pathname = String "/" rest
       /\ single_line rest
       /\ pathname = (serve_prefix pathname ++ tail)%string
       /\ upload_at_end tail = true)
  /\ ((forall front tail,
         pathname = (front ++ tail)%string -> upload_at_end tail = false) ->
      serve_prefix pathname = ""%string).
Proof.
  split; [apply serve_prefix_sound|].
  intros Hno.
  destruct (serve_prefix_sound pathname)
    as [H|(rest & tail & _ & _ & Hp & Ht)]; [exact H|].
  rewrite (Hno _ _ Hp) in Ht. discriminate Ht.
Qed.

Lemma base_path_precedes_upload_witness :
  serve_prefix "/nspic/uploads" = ""%string.
Proof.
  apply (base_path_precedes_upload "/nspic/uploads").
  intros front tail H.
  repeat (destruct front as [|? front];
          [cbn in H; subst tail; reflexivity
          |cbn in H; first [discriminate H | injection H as _ H]]).
Defined.

(** X11: on a page served at a base path followed by [/upload] or
    [/upload/], in whatever letter case, the detected base path is that
    base path, and at [/upload] itself it is empty; the request then goes
    to the base path followed by [/upload/]. *)
Theorem upload_page_posts_to_its_base
        (rest tail : string) (form : Form) :
  single_line rest ->
  upload_at_end tail = true ->
  serve_prefix (String "/" rest ++ tail) = String "/" rest
  /\ serve_prefix tail = ""%string
  /\ In (open "post" (String "/" rest ++ "/upload/"))
        (postFile (serve_prefix (String "/" rest ++ tail)) form)
  /\ In (open "post" "/upload/") (postFile (serve_prefix tail) form).
Proof.
  intros Hrest Ht.
  rewrite (serve_prefix_complete rest tail Hrest Ht).
  rewrite (serve_prefix_at_end tail Ht).
  split; [reflexivity|split; [reflexivity|]].
  unfold postFile. rewrite !append_files_spec.
  split; right; left; reflexivity.
Qed.

Lemma upload_page_posts_to_its_base_witness :
  serve_prefix "/Photos/2024/UpLoad" = "/Photos/2024"%string.
Proof.
  apply (upload_page_posts_to_its_base "Photos/2024" "/UpLoad"
           {| Desc := ""; FilesToUpload := [] |}).
  - intros c Hc. cbn in Hc.
    repeat (destruct Hc as [<-|Hc]; [reflexivity|]). destruct Hc.
  - reflexivity.
Defined.

(** X12: the address the request goes to is itself an upload page with
    the same base path: detecting again on the detected base path followed
    by [/upload/] gives the same base path. *)
Theorem request_address_keeps_base_path (pathname : string) :
  serve_prefix (serve_prefix pathname ++ "/upload/") = serve_prefix pathname.
Proof.
  destruct (serve_prefix_sound pathname)
    as [->|(rest & tail & -> & Hrest & _)].
  - reflexivity.
  - now apply serve_prefix_complete.
Qed.

(** X13: with no file selected the summed size is 0: an event with a
    positive loaded writes nothing before the upload is complete, when it
    writes 100, and an event with loaded 0 divides 0 by 0 and writes NaN
    to the width and the label. *)
Theorem progress_with_no_file (e : ProgressEvent) :
  let listener := progress_listener (sum_sizes []) in
  (PrimFloat.ltb 0 (loaded e) = true ->
   on_progress listener e
   = if PrimFloat.eqb (loaded e) (total e) then show (Int 100) else [])
  /\ (PrimFloat.eqb (loaded e) 0 = true ->
      on_progress listener e
      = show NaN
          ++ (if PrimFloat.eqb (loaded e) (total e)
              then show (Int 100) else [])).
Proof.
  cbv zeta. change (sum_sizes []) with 0%float. unfold on_progress. split.
  - intros Hpos.
    pose proof (GalleryFacts.Number_lt_not_ge _ _ Hpos) as Hle.
    unfold Gallery.Number_ge in Hle. now rewrite Hle.
  - intros Hzero. rewrite FloatAxioms.eqb_spec in Hzero.
    apply SFeqb_zero in Hzero as [s Hs].
    assert (Hle : PrimFloat.leb (loaded e) 0 = true).
    { rewrite FloatAxioms.leb_spec, Hs. reflexivity. }
    rewrite Hle. do 2 f_equal.
    unfold Math_round.
    rewrite FloatAxioms.mul_spec, FloatAxioms.div_spec, Hs.
    reflexivity.
Qed.

Lemma progress_with_no_file_witness :
  on_progress (progress_listener (sum_sizes []))
              {| loaded := 120; total := 300 |} = [].
Proof.
  destruct (progress_with_no_file {| loaded := 120; total := 300 |})
    as (H & _).
  rewrite H; reflexivity.
Defined.

(** X14: at the start of an upload, loaded being 0 and the summed size
    positive, the percentage written reads 0. *)
Theorem progress_starts_at_zero (total_size : float) (e : ProgressEvent) :
  PrimFloat.eqb (loaded e) 0 = true ->
  PrimFloat.ltb 0 total_size = true ->
  exists percent,
    reads_zero percent
    /\ on_progress (progress_listener total_size) e
       = show percent
           ++ (if PrimFloat.eqb (loaded e) (total e)
               then show (Int 100) else []).
Proof.
  rewrite FloatAxioms.eqb_spec, FloatAxioms.ltb_spec.
  intros Hzero Hpos.
  apply SFeqb_zero in Hzero as [s Hs].
  assert (Hp : Prim2SF (loaded e / total_size * 100)%float = S754_zero s).
  { rewrite FloatAxioms.mul_spec, FloatAxioms.div_spec, Hs.
    destruct (SFltb_zero_positive _ Hpos) as [->|(m & ex & ->)];
      now destruct s. }
  assert (Hle : PrimFloat.leb (loaded e) total_size = true).
  { rewrite FloatAxioms.leb_spec, Hs.
    now destruct (SFltb_zero_positive _ Hpos) as [->|(m & ex & ->)]. }
  exists (Math_round (loaded e / total_size * 100)%float). split.
  - unfold Math_round, reads_zero. rewrite Hp. destruct s; auto.
  - unfold on_progress. now rewrite Hle.
Qed.

Lemma progress_starts_at_zero_witness :
  exists percent,
    reads_zero percent
    /\ on_progress (progress_listener 1000) {| loaded := 0; total := 1200 |}
       = show percent ++ [].
Proof.
  exact (progress_starts_at_zero 1000 {| loaded := 0; total := 1200 |}
           eq_refl eq_refl).
Defined.

(** X15: when loaded has reached the summed size, a positive finite
    Number, the percentage written is exactly 100. *)
Theorem progress_reaches_100 (total_size : float) (e : ProgressEvent) :
  PrimFloat.eqb (loaded e) total_size = true ->
  PrimFloat.ltb 0 (loaded e) = true ->
  PrimFloat.ltb (loaded e) infinity = true ->
  on_progress (progress_listener total_size) e
  = show (Int 100)
      ++ (if PrimFloat.eqb (loaded e) (total e) then show (Int 100) else []).
Proof.
  rewrite FloatAxioms.eqb_spec, !FloatAxioms.ltb_spec.
  intros Heq Hpos Hfin.
  destruct (SFltb_zero_positive _ Hpos) as [Hl|(m & ex & Hl)];
    [rewrite Hl in Hfin; discriminate Hfin|].
  rewrite Hl in Heq. apply SFeqb_finite in Heq.
  assert (Hle : PrimFloat.leb (loaded e) total_size = true).
  { rewrite FloatAxioms.leb_spec, Hl, Heq. apply SFleb_refl_finite. }
  unfold on_progress. rewrite Hle. do 2 f_equal.
  unfold Math_round.
  rewrite FloatAxioms.mul_spec, FloatAxioms.div_spec, Hl, Heq.
  unfold SF64div. rewrite SFdiv_self. vm_compute. reflexivity.
Qed.

Lemma progress_reaches_100_witness :
  on_progress (progress_listener 1000) {| loaded := 1000; total := 1200 |}
  = show (Int 100) ++ [].
Proof.
  exact (progress_reaches_100 1000 {| loaded := 1000; total := 1200 |}
           eq_refl eq_refl eq_refl).
Defined.

(* ================================================================== *)
(** * How the callbacks of a page compose *)
(* ================================================================== *)

Module GalleryCompose.
Import DOM Gallery Notions GalleryFacts GalleryMore.

(** What a batch does to the class list of an element depends on that
    class list only. *)
Lemma activate_local (g : Gallery) (index : Z) (d1 d2 : Document)
      (e : Element) :
  d1 e = d2 e -> activateIndicator g index d1 e = activateIndicator g index d2 e.
Proof.
  intros H. unfold activateIndicator, forEach.
  destruct (pass_shape index e (Indicators g) 0%Z) as [F|[F|[F|F]]];
    rewrite !F; now rewrite H.
Qed.

Lemma observed_local (g : Gallery)
      (entries : list IntersectionObserverEntry) (e : Element) :
  forall d1 d2 : Document,
    d1 e = d2 e ->
    onIntersectionObserved g entries d1 e
    = onIntersectionObserved g entries d2 e.
Proof.
  induction entries as [|x l IH]; intros d1 d2 H; [exact H|].
  rewrite !observed_cons. apply IH. unfold on_entry.
  destruct (qualifies x); [now apply activate_local|exact H].
Qed.

Lemma observed_frame (g : Gallery)
      (entries : list IntersectionObserverEntry) (e : Element) :
  ~ In e (Indicators g) ->
  forall d, onIntersectionObserved g entries d e = d e.
Proof.
  intros Hn. induction entries as [|x l IH]; intros d; [reflexivity|].
  rewrite observed_cons, IH. unfold on_entry.
  destruct (qualifies x); [now apply activate_frame|reflexivity].
Qed.

End GalleryCompose.

Import GalleryCompose.

(** X16: the callbacks of two galleries that share no Indicator commute:
    whichever of them handles its batches first, every element ends with
    the same class list. *)
Theorem galleries_commute
        (A B : Gallery)
        (batchesA batchesB : list (list IntersectionObserverEntry))
        (d : Document) :
  (forall e, In e (Indicators A) -> ~ In e (Indicators B)) ->
  forall e,
    classList (deliver A batchesA (deliver B batchesB d)) e
    = classList (deliver B batchesB (deliver A batchesA d)) e.
Proof.
  intros Hdisj e. unfold classList. rewrite !deliver_concat.
  set (a := List.concat batchesA). set (b := List.concat batchesB).
  destruct (in_dec Nat.eq_dec e (Indicators A)) as [HA|HA].
  - rewrite (observed_frame B b e (Hdisj e HA)).
    apply observed_local. now apply observed_frame, Hdisj.
  - rewrite (observed_frame A a e HA).
    apply observed_local. symmetry. now apply observed_frame.
Qed.

Lemma galleries_commute_witness :
  classList (deliver Sample.galleryA [[Sample.notify 6 0.9%float]]
               (deliver Sample.galleryB [[Sample.notify 20 0.8%float]]
                        Sample.served)) 23
  = classList (deliver Sample.galleryB [[Sample.notify 20 0.8%float]]
                 (deliver Sample.galleryA [[Sample.notify 6 0.9%float]]
                          Sample.served)) 23.
Proof.
  apply galleries_commute.
  intros e He. cbn in He.
  repeat (destruct He as [<-|He]; [absent|]). destruct He.
Defined.

(** X17: in a gallery with fewer Indicators than Items, a qualifying
    notification for an Item beyond the last Indicator leaves no Indicator
    of the gallery active. *)
Theorem item_without_indicator_clears
        (g : Gallery) (entry : IntersectionObserverEntry) (d : Document)
        (j : nat) :
  NoDup (Images g) ->
  nth_error (Images g) j = Some (target entry) ->
  (List.length (Indicators g) <= j)%nat ->
  qualifies entry = true ->
  countActive g (onIntersectionObserved g [entry] d) = 0%nat.
Proof.
  intros Hnd Hj Hlen Hq.
  change (onIntersectionObserved g [entry] d) with (on_entry g entry 0%Z d).
  unfold on_entry. rewrite Hq. cbv zeta.
  rewrite (indexOf_nth _ _ j Hnd Hj).
  unfold countActive. apply count_none.
  intros e He. apply activate_out_of_range; [lia|exact He].
Qed.

Lemma item_without_indicator_clears_witness :
  countActive {| Images := [4; 5; 6]; Indicators := [11; 12] |}
    (onIntersectionObserved {| Images := [4; 5; 6]; Indicators := [11; 12] |}
       [Sample.notify 6 0.9%float] Sample.first_active) = 0%nat.
Proof.
  apply (item_without_indicator_clears
           {| Images := [4; 5; 6]; Indicators := [11; 12] |}
           (Sample.notify 6 0.9%float) Sample.first_active 2).
  - repeat constructor; absent.
  - reflexivity.
  - cbn. lia.
  - reflexivity.
Defined.
